(** * Chart-image extraction and registry remapping

    A shallow embedding of [get-list-of-eks-images.py]
    (modules/replication/dockerimage-replication) and the properties of its
    image-mapping list, its per-workload override documents, its registry
    rewriter and its cert-manager post-processing rule. *)

From Stdlib Require Import String Ascii List Bool.
From stdpp Require Import base option list strings gmap.

Import ListNotations.
Local Open Scope string_scope.
Local Open Scope list_scope.

(** ** Python values and exceptions *)

(** The exceptions [main] can raise on the data modelled here. *)
Inductive pyerr : Type :=
  | KeyError (key : string)
  | TypeError
  | AttributeError.

(** A computation that returns or raises. *)
Inductive result (A : Type) : Type :=
  | Ok (a : A)
  | Raise (e : pyerr).
Arguments Ok {A} a.
Arguments Raise {A} e.

Definition rbind {A B} (m : result A) (k : A -> result B) : result B :=
  match m with
  | Ok a => k a
  | Raise e => Raise e
  end.

#[global] Instance result_bind : MBind result := fun A B k m => rbind m k.
#[global] Instance result_ret : MRet result := @Ok.

(** A chart coordinate field is a [str] or [None]. *)
Abbreviation pyval := (option string).

(** Truth value of a [str]-or-[None] object: [None] and the empty string
    are falsy. *)
Definition truthy (v : pyval) : bool :=
  match v with
  | None => false
  | Some s => negb (String.eqb s EmptyString)
  end.

(** [f"{v}"] : formatting inside an f-string. *)
Definition fmt (v : pyval) : string :=
  match v with
  | None => "None"
  | Some s => s
  end.

(** ** Python string methods used by the script *)

Module Py.

(** [s.split(sep)] for a one-character separator. *)
Fixpoint split (sep : ascii) (s : string) : list string :=
  match s with
  | EmptyString => [EmptyString]
  | String a s' =>
      if Ascii.eqb a sep then EmptyString :: split sep s'
      else match split sep s' with
           | [] => [String a EmptyString]
           | h :: t => String a h :: t
           end
  end.

(** [sep.join(l)]. *)
Fixpoint join (sep : string) (l : list string) : string :=
  match l with
  | [] => EmptyString
  | [x] => x
  | x :: rest => x ++ sep ++ join sep rest
  end.

(** [s.rstrip(c)] for a one-character set. *)
Fixpoint rstrip (c : ascii) (s : string) : string :=
  match s with
  | EmptyString => EmptyString
  | String a s' =>
      match rstrip c s' with
      | EmptyString => if Ascii.eqb a c then EmptyString else String a EmptyString
      | r => String a r
      end
  end.

(** [c in s] for a one-character needle. *)
Fixpoint contains (c : ascii) (s : string) : bool :=
  match s with
  | EmptyString => false
  | String a s' => Ascii.eqb a c || contains c s'
  end.

(** [l[0]], [l[1]] and [l[-1]] on a list of strings; [split] never returns
    an empty list, so the defaults are never reached from the script. *)
Definition first (l : list string) : string := hd EmptyString l.
Definition last (l : list string) : string := List.last l EmptyString.

End Py.

(** ** Python dicts that are iterated: insertion-ordered association lists *)

Section Dict.
Context {V : Type}.

Fixpoint dict_get (d : list (string * V)) (k : string) : option V :=
  match d with
  | [] => None
  | (k', v) :: d' => if String.eqb k' k then Some v else dict_get d' k
  end.

(** [d[k] = v]: overwrite in place, else append. *)
Fixpoint dict_set (d : list (string * V)) (k : string) (v : V) : list (string * V) :=
  match d with
  | [] => [(k, v)]
  | (k', v') :: d' =>
      if String.eqb k' k then (k, v) :: d' else (k', v') :: dict_set d' k v
  end.

(** [del d[k]] once the key is known to be there. *)
Fixpoint dict_del (d : list (string * V)) (k : string) : list (string * V) :=
  match d with
  | [] => []
  | (k', v') :: d' =>
      if String.eqb k' k then d' else (k', v') :: dict_del d' k
  end.

Definition dict_keys (d : list (string * V)) : list string := map fst d.
Definition dict_values (d : list (string * V)) : list V := map snd d.
End Dict.

(** ** Data model *)

(** A parsed YAML/JSON tree: chart values as [helm show] returns them and the
    per-workload override tree the script assembles. *)
#[local] Set Warnings "-register-all".
Inductive Node : Type :=
  | NNone
  | NStr (s : string)
  | NSeq (items : list Node)
  | NMap (kvs : list (string * Node)).

(** Truth value of a tree node in an [if]. *)
Definition node_truthy (n : Node) : bool :=
  match n with
  | NNone => false
  | NStr s => negb (String.eqb s EmptyString)
  | NSeq items => negb (Nat.eqb (length items) 0)
  | NMap kvs => negb (Nat.eqb (length kvs) 0)
  end.

(** [n[key]] for a string key. *)
Definition subscript (n : Node) (key : string) : result Node :=
  match n with
  | NMap kvs =>
      match dict_get kvs key with
      | Some v => Ok v
      | None => Raise (KeyError key)
      end
  | _ => Raise TypeError
  end.

(** The leaf a [str]-or-[None] value becomes when stored in a tree. *)
Definition leaf (v : pyval) : Node :=
  match v with
  | None => NNone
  | Some s => NStr s
  end.

(** One field binding of an image spec: where the field lives in the chart's
    values and, for a repository, an optional literal ["name"]. *)
Record Binding : Type := {
  b_path : string;
  b_name : option string
}.

(** An image spec: field role -> binding, in declaration order. *)
Definition ImageFieldSpec : Type := list (string * Binding).

(** One workload declaration of the version catalog. *)
Record ChartSpec : Type := {
  chart_name : string;
  chart_repository : string;
  chart_version : string;
  subcharts : option (list string);
  images : option (list (string * ImageFieldSpec))
}.

(** The parsed command line, as far as [main] reads it. *)
Record Args : Type := {
  registry_prefix : string;
  replicate_charts : bool;
  update_helm : bool
}.

(** What [parser.get_*] return for the chosen EKS version. *)
Record Catalog : Type := {
  ami_version : string;
  additional_images : list (string * string);
  docker_mappings : gmap string string;
  workloads_data : list (string * ChartSpec)
}.

(** [custom_chart_values[workload]]. *)
Record ChartOut : Type := {
  helm : list (string * string);
  values : Node
}.

(** One element of [updated_images]. *)
Record Mapping : Type := {
  src : pyval;
  target : string
}.

(** Modelled from the spec: [deep_merge] of helmparser.utils is not among the
    sources; the spec gives it as a recursive map union. Its three arguments
    in [main] are single-key documents with the distinct keys ["ami"],
    ["charts"] and ["additional_images"], so the merged document is the
    record of the three. *)
Record Manifest : Type := {
  ami : string;
  charts : list (string * ChartOut);
  additional_images_out : list (string * string)
}.

(** How a run of [main] ends: both files written, or an exception that left
    no file behind; [logged] tells whether [logger.error] reported it. *)
Inductive outcome : Type :=
  | Written (replication_result : Manifest) (updated_images : list Mapping)
  | Aborted (e : pyerr) (logged : bool).

(** ** [sorted(set(images_wip))] *)

Fixpoint insert_sorted (x : string) (l : list string) : list string :=
  match l with
  | [] => [x]
  | y :: l' => if String.leb x y then x :: l else y :: insert_sorted x l'
  end.

Definition sort_strings (l : list string) : list string :=
  fold_right insert_sorted [] l.

(** Sorting compares [None] with a [str] as soon as the set holds [None] and
    anything else, which is a [TypeError]. *)
Definition py_sorted_set (l : list pyval) : result (list pyval) :=
  let s := remove_dups l in
  match mapM id s with
  | Some strs => Ok (Some <$> sort_strings strs)
  | None => if Nat.eqb (length s) 1 then Ok s else Raise TypeError
  end.

(** ** [process_image] (lines 172-187) *)

(** Lines 175-177: [i_t = full_image.split(":")], [image = i_t[0]] and
    [tag = i_t[1] if len(i_t) > 1 else "latest"]. *)
Definition split_image_tag (full : string) : string * string :=
  let i_t := Py.split ":" full in
  (Py.first i_t, match i_t with _ :: t :: _ => t | _ => "latest" end).

Definition process_image (full_image : pyval) (docker_mappings : gmap string string)
  : result pyval :=
  if bool_decide (docker_mappings = ∅) then Ok full_image
  else
    match full_image with
    | None => Raise AttributeError
    | Some full =>
        let '(image, tag) := split_image_tag full in
        if Py.contains "." image then
          let s := Py.split "/" (Py.rstrip "/" image) in
          let dns := Py.first s in
          let reassembled_url := Py.join "/" (tl s) in
          match docker_mappings !! dns with
          | Some mirror =>
              Ok (Some (mirror +:+ "/" +:+ reassembled_url +:+ ":" +:+ tag))
          | None => Ok full_image
          end
        else
          if truthy (docker_mappings !! "default") then
            Ok (Some (fmt (docker_mappings !! "default") +:+ "/" +:+ image +:+ ":" +:+ tag))
          else Ok full_image
    end.

(** One pass of lines 189-194. *)
Fixpoint append_mappings (prefix : string) (docker_mappings : gmap string string)
    (imgs : list pyval) (updated_images : list Mapping) : result (list Mapping) :=
  match imgs with
  | [] => Ok updated_images
  | image :: rest =>
      working_image ← process_image image docker_mappings;
      append_mappings prefix docker_mappings rest
        (updated_images ++ [{| src := working_image; target := prefix +:+ fmt image |}])
  end.

(** ** [main] *)

Section Main.

(** The collaborators of helmparser, which are not among the sources:
    [helm.show], [helm.show_subchart], [parser.parse_value] and
    [parser.add_branch_to_dict]. [main] hands bindings over to the last two
    without looking into them, the ["name"] key apart. *)
Variable helm_show : string -> string -> string -> Node.
Variable helm_show_subchart : string -> string -> string -> string -> string -> Node.
Variable parse_value : Node -> ChartSpec -> string -> Binding -> string -> pyval.
Variable add_branch_to_dict : Node -> Binding -> pyval -> Node.
Variable project_path : string.

(** Lines 59-75: [parsed_charts[workload]]. *)
Definition show_workload (workload : string) (values : ChartSpec) : Node :=
  match images values with
  | None => NMap []
  | Some _ =>
      let chart_ref := workload +:+ "/" +:+ chart_name values in
      let shown :=
        [("chart", helm_show "chart" chart_ref (chart_version values));
         ("values", helm_show "values" chart_ref (chart_version values))] in
      match subcharts values with
      | None => NMap shown
      | Some subs =>
          NMap (shown ++
            [("subcharts",
              NMap (fold_left
                (fun d subchart =>
                   dict_set d subchart
                     (helm_show_subchart project_path workload (chart_name values)
                        subchart (chart_version values)))
                subs []))])
      end
  end.

Definition get_parsed_charts (wl : list (string * ChartSpec)) : list (string * Node) :=
  fold_left (fun pc '(workload, values) => dict_set pc workload (show_workload workload values))
    wl [].

(** Lines 78-89: the ["helm"] block of a workload. *)
Definition helm_block (args : Args) (values : ChartSpec) : list (string * string) :=
  let helm0 :=
    [("name", chart_name values);
     ("repository", chart_repository values);
     ("version", chart_version values)] in
  if replicate_charts args then
    let helm1 := dict_set helm0 "srcRepository" (chart_repository values) in
    let new_r_name := Py.last (Py.split "/" (Py.rstrip "/" (chart_repository values))) in
    dict_set helm1 "repository"
      ("oci://" +:+ registry_prefix args +:+ new_r_name +:+ "/" +:+ chart_name values)
  else helm0.

(** The variables of the loop body at lines 96-165; [overrides] is
    [custom_chart_values[workload]["values"]], which every
    [add_branch_to_dict] call reads and stores back. *)
Record locals : Type := {
  registry : pyval;
  repository : pyval;
  tag : pyval;
  overrides : Node
}.

Section Extractor.
Variable args : Args.
Variable parsed : Node.
Variable values : ChartSpec.
Variable image_name : string.

(** Lines 102-113. *)
Definition registry_step (st : locals) (kv : string * Binding) : locals :=
  let '(k, v) := kv in
  if String.eqb k "registry" then
    let r := parse_value parsed values image_name v k in
    {| registry := r; repository := repository st; tag := tag st;
       overrides :=
         if truthy r
         then add_branch_to_dict (overrides st) v (Some (registry_prefix args +:+ fmt r))
         else overrides st |}
  else st.

(** Lines 116-145. *)
Definition repository_tag_step (st : locals) (kv : string * Binding) : locals :=
  let '(k, v) := kv in
  if String.eqb k "repository" then
    match b_name v with
    | Some n =>
        {| registry := registry st; repository := Some n; tag := tag st;
           overrides := overrides st |}
    | None =>
        let r := parse_value parsed values image_name v k in
        let repository_in_chart_values :=
          if negb (truthy (registry st))
          then Some (registry_prefix args +:+ fmt r)
          else r in
        {| registry := registry st; repository := r; tag := tag st;
           overrides := add_branch_to_dict (overrides st) v repository_in_chart_values |}
    end
  else if String.eqb k "tag" then
    let t := parse_value parsed values image_name v k in
    {| registry := registry st; repository := repository st; tag := t;
       overrides := add_branch_to_dict (overrides st) v t |}
  else st.

(** Lines 148-156. *)
Definition remove_step (st : locals) (kv : string * Binding) : locals :=
  let '(k, v) := kv in
  if String.eqb k "remove" then
    {| registry := registry st; repository := repository st; tag := tag st;
       overrides := add_branch_to_dict (overrides st) v (Some EmptyString) |}
  else st.

(** Lines 158-162; [image += ...] on [None] is a [TypeError]. *)
Definition assemble_image (st : locals) : result pyval :=
  let image := repository st in
  let image :=
    if truthy (registry st)
    then Some (fmt (registry st) +:+ "/" +:+ fmt (repository st))
    else image in
  if truthy (tag st) then
    match image with
    | Some s => Ok (Some (s +:+ ":" +:+ fmt (tag st)))
    | None => Raise TypeError
    end
  else Ok image.

(** The three passes over [image_data.items()]. *)
Definition run_passes (image_data : ImageFieldSpec) (vals : Node) : locals :=
  let st0 := {| registry := None; repository := None; tag := None; overrides := vals |} in
  let st1 := fold_left registry_step image_data st0 in
  let st2 := fold_left repository_tag_step image_data st1 in
  fold_left remove_step image_data st2.

(** One iteration of the loop at line 96: the new override tree and the
    image appended to [images_wip]. *)
Definition extract_image (image_data : ImageFieldSpec) (vals : Node)
  : result (Node * pyval) :=
  let st := run_passes image_data vals in
  image ← assemble_image st;
  Ok (overrides st, image).
End Extractor.

(** Lines 96-165 for one workload. *)
Fixpoint walk_images (args : Args) (parsed : Node) (values : ChartSpec)
    (specs : list (string * ImageFieldSpec)) (vals : Node) (images_wip : list pyval)
  : result (Node * list pyval) :=
  match specs with
  | [] => Ok (vals, images_wip)
  | (image_name, image_data) :: rest =>
      '(vals', image) ← extract_image args parsed values image_name image_data vals;
      walk_images args parsed values rest vals' (images_wip ++ [image])
  end.

(** The state of the loop at line 77. *)
Definition walk_state : Type := (list (string * ChartOut) * list pyval)%type.

(** Lines 77-168 for one workload. The override tree starts empty, is
    threaded through the extractor and ends up under ["values"]. *)
Definition walk_workload (args : Args) (parsed_charts : list (string * Node))
    (st : walk_state) (wv : string * ChartSpec) : result walk_state :=
  let '(custom_chart_values, images_wip) := st in
  let '(workload, values) := wv in
  let block := helm_block args values in
  match images values with
  | None =>
      Ok (dict_set custom_chart_values workload {| helm := block; values := NMap [] |},
          images_wip)
  | Some specs =>
      match dict_get parsed_charts workload with
      | None => Raise (KeyError workload)
      | Some parsed =>
          '(vals, images_wip') ← walk_images args parsed values specs (NMap []) images_wip;
          Ok (dict_set custom_chart_values workload {| helm := block; values := vals |},
              images_wip')
      end
  end.

Fixpoint walk (args : Args) (parsed_charts : list (string * Node))
    (wl : list (string * ChartSpec)) (st : walk_state) : result walk_state :=
  match wl with
  | [] => Ok st
  | wv :: rest =>
      st' ← walk_workload args parsed_charts st wv;
      walk args parsed_charts rest st'
  end.

(** Lines 200-207: the cert-manager rule. *)
Definition cert_manager_rule (custom_chart_values : list (string * ChartOut))
  : result (list (string * ChartOut)) :=
  match dict_get custom_chart_values "cert_manager" with
  | None => Raise (KeyError "cert_manager")
  | Some entry =>
      appVersion ← subscript (values entry) "appVersion";
      if node_truthy appVersion then
        match values entry with
        | NMap kvs =>
            Ok (dict_set custom_chart_values "cert_manager"
                  {| helm := helm entry; values := NMap (dict_del kvs "appVersion") |})
        | _ => Raise TypeError
        end
      else Ok custom_chart_values
  end.

(** Lines 169-194: [sorted_images] is computed and then left alone; the
    second loop runs over [images_wip]. *)
Definition image_mapping_list (args : Args) (cat : Catalog) (images_wip : list pyval)
  : result (list Mapping) :=
  sorted_images ← py_sorted_set images_wip;
  updated_images ← append_mappings (registry_prefix args) (docker_mappings cat)
                     (Some <$> dict_values (additional_images cat)) [];
  append_mappings (registry_prefix args) (docker_mappings cat) images_wip updated_images.

(** Lines 40-42. *)
Definition updated_additional_images (args : Args) (cat : Catalog) : list (string * string) :=
  fold_left (fun d '(name, image) => dict_set d name (registry_prefix args +:+ image))
    (additional_images cat) [].

(** [main]. The [update_helm] branch only talks to the chart repositories
    and leaves the data alone. *)
Definition main (args : Args) (cat : Catalog) : outcome :=
  let images_wip := Some <$> dict_values (additional_images cat) in
  let parsed_charts := get_parsed_charts (workloads_data cat) in
  match
    '(custom_chart_values, images_wip') ←
      walk args parsed_charts (workloads_data cat) ([], images_wip);
    updated_images ← image_mapping_list args cat images_wip';
    Ok (custom_chart_values, updated_images)
  with
  | Raise e => Aborted e false
  | Ok (custom_chart_values, updated_images) =>
      match cert_manager_rule custom_chart_values with
      | Raise e => Aborted e true
      | Ok custom_chart_values' =>
          Written
            {| ami := ami_version cat;
               charts := custom_chart_values';
               additional_images_out := updated_additional_images args cat |}
            updated_images
      end
  end.

End Main.

(** ** The path resolver, for running [main] on concrete catalogs *)

Module PathResolver.

(** Modelled from the spec: [resolve(tree, pathSpec)] of the PathResolver
    (parser.parse_value's lookup, not among the sources) reads the leaf at a
    dotted path of map keys; a missing path is NotFound. *)
Fixpoint resolve (path : list string) (tree : Node) : option Node :=
  match path with
  | [] => Some tree
  | k :: rest =>
      match tree with
      | NMap kvs =>
          match dict_get kvs k with
          | Some sub => resolve rest sub
          | None => None
          end
      | _ => None
      end
  end.

(** Modelled from the spec: [setAtPath(tree, pathSpec, value)] of the
    PathResolver (parser.add_branch_to_dict, not among the sources) sets the
    leaf at the path, creating intermediate maps and keeping sibling keys. *)
Fixpoint set_at_path (path : list string) (value : Node) (tree : Node) : Node :=
  match path with
  | [] => value
  | k :: rest =>
      let kvs := match tree with NMap kvs => kvs | _ => [] end in
      let sub := match dict_get kvs k with Some sub => sub | None => NMap [] end in
      NMap (dict_set kvs k (set_at_path rest value sub))
  end.

(** Modelled from the spec: [parser.parse_value] (not among the sources)
    resolves the binding's path in the chart's default values; only a string
    leaf is a coordinate field. *)
Definition parse_value (parsed : Node) (values : ChartSpec) (image_name : string)
    (v : Binding) (k : string) : pyval :=
  match subscript parsed "values" with
  | Ok tree =>
      match resolve (Py.split "." (b_path v)) tree with
      | Some (NStr s) => Some s
      | _ => None
      end
  | Raise _ => None
  end.

(** Modelled from the spec: [parser.add_branch_to_dict] (not among the
    sources) is [setAtPath] at the binding's path. *)
Definition add_branch_to_dict (tree : Node) (v : Binding) (value : pyval) : Node :=
  set_at_path (Py.split "." (b_path v)) (leaf value) tree.

End PathResolver.

(** ** The rewriter as the specification words it *)

Module RegistryRewriter.

(** Cut a string at its last separator, if it has one. *)
Fixpoint rsplit_once (sep : ascii) (s : string) : option (string * string) :=
  match s with
  | EmptyString => None
  | String a s' =>
      match rsplit_once sep s' with
      | Some (h, t) => Some (String a h, t)
      | None => if Ascii.eqb a sep then Some (EmptyString, s') else None
      end
  end.

(** "split rawImage into image and tag on the last ':'; default tag is
    latest when absent". *)
Definition split_last_colon (rawImage : string) : string * string :=
  match rsplit_once ":" rawImage with
  | Some (image, tag) => (image, tag)
  | None => (rawImage, "latest")
  end.

(** The rewriter of section 4.3, word for word: the first path segment
    decides whether the image names a registry. *)
Definition rewrite (rawImage : string) (mirrorTable : gmap string string) : string :=
  let '(image, tag) := split_last_colon rawImage in
  let segments := Py.split "/" image in
  if Py.contains "." (Py.first segments) then
    match mirrorTable !! Py.first segments with
    | Some mirror => mirror +:+ "/" +:+ Py.join "/" (tl segments) +:+ ":" +:+ tag
    | None => rawImage
    end
  else
    match mirrorTable !! "default" with
    | Some mirror => mirror +:+ "/" +:+ image +:+ ":" +:+ tag
    | None => rawImage
    end.

End RegistryRewriter.

(** ** The [add_branch_to_dict] calls of the three loops

    What the loops at lines 102-156 hand to [add_branch_to_dict], call by
    call: the binding and the value written under it. *)

Section ImageFieldExtractor.
Variable parse_value : Node -> ChartSpec -> string -> Binding -> string -> pyval.
Variable add_branch_to_dict : Node -> Binding -> pyval -> Node.
Variable args : Args.
Variable parsed : Node.
Variable values : ChartSpec.
Variable image_name : string.

Local Abbreviation resolve v k := (parse_value parsed values image_name v k).
Local Abbreviation prefix := (registry_prefix args).

(** The calls, made one after the other on the override tree. *)
Definition apply_writes (ws : list (Binding * pyval)) (tree : Node) : Node :=
  fold_left (fun t '(v, x) => add_branch_to_dict t v x) ws tree.

(** Lines 102-104: the variable [registry] when the first loop is over. *)
Definition registry_found (image_data : ImageFieldSpec) : pyval :=
  fold_left (fun acc '(k, v) => if String.eqb k "registry" then resolve v k else acc)
    image_data None.

(** Lines 106-111: the calls of the first loop, made under [if registry:]. *)
Definition registry_writes (image_data : ImageFieldSpec) : list (Binding * pyval) :=
  flat_map (fun '(k, v) =>
    if String.eqb k "registry" then
      if truthy (resolve v k) then [(v, Some (prefix +:+ fmt (resolve v k)))] else []
    else []) image_data.

(** Lines 116-145: the calls of the second loop. A repository binding with
    a ["name"] leaves the loop body at line 120, before any call; the others
    write under [if not registry:], and a tag is written as it resolved. *)
Definition repository_tag_writes (found : pyval) (image_data : ImageFieldSpec)
  : list (Binding * pyval) :=
  flat_map (fun '(k, v) =>
    if String.eqb k "repository" then
      match b_name v with
      | Some _ => []
      | None =>
          [(v, if truthy found then resolve v k else Some (prefix +:+ fmt (resolve v k)))]
      end
    else if String.eqb k "tag" then [(v, resolve v k)]
    else []) image_data.

(** Lines 148-156: the calls of the third loop. *)
Definition remove_writes (image_data : ImageFieldSpec) : list (Binding * pyval) :=
  flat_map (fun '(k, v) => if String.eqb k "remove" then [(v, Some EmptyString)] else [])
    image_data.

End ImageFieldExtractor.

(** ** The extractor as the specification words it (section 4.2) *)

Module ExtractorSpec.
Section Passes.
Variable parse_value : Node -> ChartSpec -> string -> Binding -> string -> pyval.
Variable add_branch_to_dict : Node -> Binding -> pyval -> Node.
Variable args : Args.
Variable parsed : Node.
Variable values : ChartSpec.
Variable image_name : string.

Local Abbreviation resolve v k := (parse_value parsed values image_name v k).
Local Abbreviation prefix := (registry_prefix args).

(** "registry pass: for each registry-role binding, resolve its value; if
    resolved, record override path -> prefix + registry and remember
    registry". Resolved is: found in the chart's values, whatever it is. *)
Definition registry_remembered (image_data : ImageFieldSpec) : pyval :=
  fold_left (fun acc '(k, v) =>
    if String.eqb k "registry" then
      match resolve v k with
      | Some r => Some r
      | None => acc
      end
    else acc) image_data None.

Definition registry_overrides (image_data : ImageFieldSpec) : list (Binding * pyval) :=
  flat_map (fun '(k, v) =>
    if String.eqb k "registry" then
      match resolve v k with
      | Some r => [(v, Some (prefix +:+ r))]
      | None => []
      end
    else []) image_data.

(** "repository pass: if the binding carries a literal name, use it verbatim
    and skip resolution; otherwise resolve the reference. If a registry was
    found in pass 1, write the repository value unprefixed; otherwise prefix
    it. Record override." A reference that is missing records nothing. *)
Definition repository_overrides (image_data : ImageFieldSpec) : list (Binding * pyval) :=
  flat_map (fun '(k, v) =>
    if String.eqb k "repository" then
      match (match b_name v with Some n => Some n | None => resolve v k end) with
      | Some r =>
          [(v, Some (match registry_remembered image_data with
                     | Some _ => r
                     | None => prefix +:+ r
                     end))]
      | None => []
      end
    else []) image_data.

(** "tag pass: resolve each tag-role binding; record override unprefixed". *)
Definition tag_overrides (image_data : ImageFieldSpec) : list (Binding * pyval) :=
  flat_map (fun '(k, v) =>
    if String.eqb k "tag" then
      match resolve v k with
      | Some t => [(v, Some t)]
      | None => []
      end
    else []) image_data.

(** "remove pass: record override with an empty-string value". *)
Definition remove_overrides (image_data : ImageFieldSpec) : list (Binding * pyval) :=
  flat_map (fun '(k, v) => if String.eqb k "remove" then [(v, Some EmptyString)] else [])
    image_data.

(** The override tree after the four passes. *)
Definition written (image_data : ImageFieldSpec) (vals : Node) : Node :=
  apply_writes add_branch_to_dict
    (registry_overrides image_data ++ repository_overrides image_data ++
     tag_overrides image_data ++ remove_overrides image_data) vals.

End Passes.
End ExtractorSpec.

(** The roles the loops look for. *)
Definition known_role (k : string) : bool :=
  String.eqb k "registry" || String.eqb k "repository" ||
  String.eqb k "tag" || String.eqb k "remove".

(** ** The replicate-charts flag *)

Definition with_flag (b : bool) (args : Args) : Args :=
  {| registry_prefix := registry_prefix args; replicate_charts := b;
     update_helm := update_helm args |}.



(** The entry lines 189-194 append for an image that is a string. *)
Definition entry_of (args : Args) (cat : Catalog) (image : string) : Mapping :=
  {| src := match process_image (Some image) (docker_mappings cat) with
            | Ok working_image => working_image
            | Raise _ => None
            end;
     target := registry_prefix args +:+ image |}.

(** ** The image mapping list as the specification words it *)

Module ResultAssembler.

(** "deduplicate rawImageList as a set, sort lexicographically ascending,
    then for the additional-images map (iterated in its own declared order)
    followed by the sorted raw list, compute source and target". *)
Definition imageMappingList (destinationPrefix : string) (mirrorTable : gmap string string)
    (additionalImages : list (string * string)) (rawImageList : list string) : list Mapping :=
  (fun image =>
     {| src := Some (RegistryRewriter.rewrite image mirrorTable);
        target := destinationPrefix +:+ image |})
  <$> (dict_values additionalImages ++ sort_strings (remove_dups rawImageList)).

End ResultAssembler.

(** ** Sample catalogs *)

Module Sample.

Definition ref (path : string) : Binding := {| b_path := path; b_name := None |}.
Definition lit (path name : string) : Binding := {| b_path := path; b_name := Some name |}.

(** The default values every sample chart is shown with. *)
Definition chart_values : Node :=
  NMap [("appVersion", NStr "v1.6.1");
        ("image", NMap [("registry", NStr "123.dkr.ecr.example.com");
                        ("repository", NStr "app");
                        ("digest", NStr "sha256:0")])].

Definition helm_show (what chart_ref version : string) : Node :=
  if String.eqb what "values" then chart_values
  else NMap [("appVersion", NStr version)].

Definition helm_show_subchart (project_path workload name subchart version : string) : Node :=
  NMap [].

Definition run (args : Args) (cat : Catalog) : outcome :=
  main helm_show helm_show_subchart PathResolver.parse_value
    PathResolver.add_branch_to_dict "/project" args cat.

Definition args0 : Args :=
  {| registry_prefix := "999.dkr.ecr.example.com/"; replicate_charts := false;
     update_helm := false |}.

Definition args_replicate : Args :=
  {| registry_prefix := "999.dkr.ecr.example.com/"; replicate_charts := true;
     update_helm := false |}.

(** cert-manager with a controller image whose tag is the chart's
    appVersion, as in the version files of the module. *)
Definition cert_manager (specs : list (string * ImageFieldSpec)) : ChartSpec :=
  {| chart_name := "cert-manager"; chart_repository := "https://charts.jetstack.io/";
     chart_version := "v1.6.1"; subcharts := None; images := Some specs |}.

Definition controller : string * ImageFieldSpec :=
  ("controller", [("repository", lit "image.repository" "quay.io/jetstack/cert-manager-controller");
                  ("tag", ref "appVersion")]).

Definition catalog (addl : list (string * string)) (mirrors : gmap string string)
    (wl : list (string * ChartSpec)) : Catalog :=
  {| ami_version := "1.29.0"; additional_images := addl; docker_mappings := mirrors;
     workloads_data := wl |}.

Definition literal (image_name name : string) : string * ImageFieldSpec :=
  (image_name, [("repository", lit "image.repository" name)]).

Definition metrics_server : ChartSpec :=
  {| chart_name := "metrics-server";
     chart_repository := "https://kubernetes-sigs.github.io/metrics-server";
     chart_version := "3.8.2"; subcharts := None; images := None |}.

(** One additional image and cert-manager's controller. *)
Definition cat_plain : Catalog :=
  catalog [("pause", "registry.k8s.io/pause:3.9")] ∅
    [("cert_manager", cert_manager [controller])].

(** Four chart images, out of order and with one repeated. *)
Definition cat_unsorted : Catalog :=
  catalog [] ∅
    [("cert_manager",
      cert_manager
        [controller;
         literal "webhook" "quay.io/jetstack/cert-manager-webhook";
         literal "cainjector" "quay.io/jetstack/cert-manager-cainjector";
         literal "startupapicheck" "quay.io/jetstack/cert-manager-cainjector"])].

(** The controller with a remove binding that blanks appVersion. *)
Definition cat_blank : Catalog :=
  catalog [] ∅
    [("cert_manager",
      cert_manager [("controller", snd controller ++ [("remove", ref "appVersion")])])].

(** The controller with a binding under a role the script does not know. *)
Definition cat_digest : Catalog :=
  catalog [] ∅
    [("cert_manager",
      cert_manager [("controller", snd controller ++ [("digest", ref "image.digest")])])].

(** The controller and an image whose repository path is not in the chart. *)
Definition cat_miss : Catalog :=
  catalog [] ∅
    [("cert_manager",
      cert_manager [controller; ("miss", [("repository", ref "image.nothere")])])].

(** A second workload, without images. *)
Definition cat_noimages : Catalog :=
  catalog [] ∅
    [("cert_manager", cert_manager [controller]); ("metrics_server", metrics_server)].

(** What [helm show] returned for a workload with images. *)
Definition shown : Node :=
  NMap [("chart", NMap [("appVersion", NStr "v1.6.1")]); ("values", chart_values)].

Definition controller_image : string := "quay.io/jetstack/cert-manager-controller:v1.6.1".
Definition webhook_image : string := "quay.io/jetstack/cert-manager-webhook".
Definition cainjector_image : string := "quay.io/jetstack/cert-manager-cainjector".

Definition prefixed (image : string) : Mapping :=
  {| src := Some image; target := "999.dkr.ecr.example.com/" +:+ image |}.

Definition cert_manager_helm : list (string * string) :=
  [("name", "cert-manager"); ("repository", "https://charts.jetstack.io/");
   ("version", "v1.6.1")].

Definition cert_manager_out (overrides : list (string * Node)) : string * ChartOut :=
  ("cert_manager", {| helm := cert_manager_helm; values := NMap overrides |}).

Definition manifest (out : list (string * ChartOut)) (addl : list (string * string))
  : Manifest :=
  {| ami := "1.29.0"; charts := out; additional_images_out := addl |}.

End Sample.
(** The number of image specs the catalog declares, all workloads together. *)
Definition image_count (wl : list (string * ChartSpec)) : nat :=
  list_sum ((fun wv => match images (snd wv) with
                       | Some specs => length specs
                       | None => 0
                       end) <$> wl).

(** ** [get_module_dependencies] of the FSx integration test
    (storage/fsx-lustre/integ/integ_fxs_lustre.py) *)

Module Integ.

(** What the [try] block of the function can run into: an exception of the
    SSM client, or one of Python's on the response. *)
Inductive failure (exn : Type) : Type :=
  | ClientError (e : exn)
  | PythonError (e : pyerr).
Arguments ClientError {exn} e.
Arguments PythonError {exn} e.

Section Dependencies.
Variable exn : Type.

(** [ssm.get_parameter(Name=name)]: the response document, or the client's
    exception. *)
Variable get_parameter : string -> exn + Node.

(** Line 27, right-hand side:
    [ssm.get_parameter(Name=f"/module-integration-tests/{key}")["Parameter"]["Value"]]. *)
Definition parameter_value (key : string) : failure exn + Node :=
  match get_parameter ("/module-integration-tests/" +:+ key) with
  | inl e => inl (ClientError e)
  | inr response =>
      match parameter ← subscript response "Parameter"; subscript parameter "Value" with
      | Ok value => inr value
      | Raise e => inl (PythonError e)
      end
  end.

(** Lines 25-29: the loop inside the [try]; the second component is the
    exception the handler printed, if any. *)
Fixpoint collect (resource_keys : list string) (dependencies : list (string * Node))
  : list (string * Node) * option (failure exn) :=
  match resource_keys with
  | [] => (dependencies, None)
  | key :: rest =>
      match parameter_value key with
      | inr value => collect rest (dict_set dependencies key value)
      | inl e => (dependencies, Some e)
      end
  end.

(** Lines 22-30. *)
Definition get_module_dependencies (resource_keys : list string)
  : list (string * Node) * option (failure exn) :=
  collect resource_keys [].

(** Lines 33-36 and the two subscripts of lines 48 and 50. *)
Definition dependencies : list (string * Node) * option (failure exn) :=
  get_module_dependencies ["vpc-id"; "vpc-private-subnets"].

Definition stack_arguments : result (Node * Node) :=
  vpc_id ← subscript (NMap (fst dependencies)) "vpc-id";
  private_subnets ← subscript (NMap (fst dependencies)) "vpc-private-subnets";
  Ok (vpc_id, private_subnets).

End Dependencies.

End Integ.

(** ** The settings of the RDS module (database/rds/settings.py) *)

Module Settings.

(** What a validator returns: the value, or a [ValueError]. *)
Inductive validated (A : Type) : Type :=
  | Valid (a : A)
  | ValueError (msg : string).
Arguments Valid {A} a.
Arguments ValueError {A} msg.

(** [cdk.RemovalPolicy], as far as the validator returns it. *)
Inductive RemovalPolicy : Type :=
  | DESTROY
  | RETAIN.

(** [str.upper] on ASCII text: the letters a-z become A-Z. *)
Definition upper_char (c : ascii) : ascii :=
  let n := nat_of_ascii c in
  if Nat.leb 97 n && Nat.leb n 122 then ascii_of_nat (n - 32) else c.

Fixpoint upper (s : string) : string :=
  match s with
  | EmptyString => EmptyString
  | String c s' => String (upper_char c) (upper s')
  end.

Fixpoint is_ascii (s : string) : bool :=
  match s with
  | EmptyString => true
  | String c s' => Nat.ltb (nat_of_ascii c) 128 && is_ascii s'
  end.

(** Lines 51-61. *)
Definition transform_removal_policy (value : string) : validated RemovalPolicy :=
  let value := upper value in
  if String.eqb value "DESTROY" then Valid DESTROY
  else if String.eqb value "RETAIN" then Valid RETAIN
  else ValueError ("Invalid removal policy " +:+ value).

Definition is_lower (c : ascii) : bool :=
  Nat.leb 97 (nat_of_ascii c) && Nat.leb (nat_of_ascii c) 122.

Fixpoint all_lower (s : string) : bool :=
  match s with
  | EmptyString => true
  | String c s' => is_lower c && all_lower s'
  end.

(** Two strings that spell the same word, letter case apart; the second
    one is in lower case. *)
Fixpoint caseless (s lower : string) : Prop :=
  match s, lower with
  | EmptyString, EmptyString => True
  | String a s', String b lower' => (a = b \/ a = upper_char b) /\ caseless s' lower'
  | _, _ => False
  end.

(** The fields of [ModuleSettings] that [description] reads. *)
Record ModuleSettings : Type := {
  solution_id : pyval;
  solution_name : pyval;
  solution_version : pyval
}.

(** Lines 63-72. *)
Definition description (self : ModuleSettings) : string :=
  if truthy (solution_id self) && truthy (solution_name self)
     && truthy (solution_version self)
  then "(" +:+ fmt (solution_id self) +:+ ") " +:+ fmt (solution_name self)
       +:+ ". Version " +:+ fmt (solution_version self)
  else if truthy (solution_id self) && truthy (solution_name self)
  then "(" +:+ fmt (solution_id self) +:+ ") " +:+ fmt (solution_name self)
  else "My Module Default Description".

Record SeedFarmerSettings : Type := {
  project_name : string;
  deployment_name : string;
  module_name : string
}.

(** Lines 87-92. *)
Definition app_prefix (self : SeedFarmerSettings) : string :=
  let prefix := Py.join "-" [project_name self; deployment_name self; module_name self] in
  prefix.

(** [len(s)]: the number of code points of a text held as UTF-8, which is
    the number of its bytes that are not continuation bytes
    ([0x80]-[0xBF]). *)
Definition is_continuation (c : ascii) : bool :=
  Nat.leb 128 (nat_of_ascii c) && Nat.ltb (nat_of_ascii c) 192.

Fixpoint len (s : string) : nat :=
  match s with
  | EmptyString => 0
  | String c s' => (if is_continuation c then 0 else 1) + len s'
  end.

(** Lines 94-99. *)
Definition check_character_length (self : SeedFarmerSettings)
  : validated SeedFarmerSettings :=
  if Nat.ltb 35 (len (project_name self +:+ "-" +:+ deployment_name self))
  then ValueError
         "This module cannot support a project+deployment name character length greater than 35"
  else Valid self.

End Settings.

(** ** More sample data *)

Module MoreSamples.
Import Sample.

(** A workload with a registry and a repository binding. *)
Definition app_images : list (string * ImageFieldSpec) :=
  [("app", [("registry", ref "image.registry"); ("repository", ref "image.repository")])].

Definition app_chart : ChartSpec :=
  {| chart_name := "app"; chart_repository := "https://charts.example.com/stable";
     chart_version := "1.0.0"; subcharts := None; images := Some app_images |}.

Definition cat_two : Catalog :=
  catalog [] ∅ [("cert_manager", cert_manager [controller]); ("app", app_chart)].

Definition cat_no_cert_manager : Catalog :=
  catalog [] ∅ [("metrics_server", metrics_server)].

Definition bare_cert_manager : ChartSpec :=
  {| chart_name := "cert-manager"; chart_repository := "https://charts.jetstack.io/";
     chart_version := "v1.6.1"; subcharts := None; images := None |}.

Definition cat_bare_cert_manager : Catalog :=
  catalog [] ∅ [("cert_manager", bare_cert_manager)].

(** Chart values whose registry field is there and empty. *)
Definition shown_empty_registry : Node :=
  NMap [("chart", NMap [("appVersion", NStr "1.0.0")]);
        ("values", NMap [("image", NMap [("registry", NStr EmptyString);
                                         ("repository", NStr "app")])])].

(** Eighteen two-byte letters. *)
Definition accented_settings : Settings.SeedFarmerSettings :=
  {| Settings.project_name := "éééééééééééééééééé"; Settings.deployment_name := "dev";
     Settings.module_name := "rds" |}.

(** An SSM that knows the VPC and nothing else. *)
Definition get_parameter (name : string) : unit + Node :=
  if String.eqb name "/module-integration-tests/vpc-id"
  then inr (NMap [("Parameter", NMap [("Value", NStr "vpc-0123")])])
  else inl tt.

Definition vpc_only (key : string) : Node := NStr "vpc-0123".

Definition integ_settings : Settings.SeedFarmerSettings :=
  {| Settings.project_name := "integ"; Settings.deployment_name := "testing";
     Settings.module_name := "rds" |}.

End MoreSamples.

(** ** Facts about the string methods *)

Section StringFacts.
Variable sep : ascii.

Lemma append_cons (a : ascii) (s t : string) : String a s +:+ t = String a (s +:+ t).
Proof. reflexivity. Qed.

Lemma append_empty_l (s : string) : EmptyString +:+ s = s.
Proof. reflexivity. Qed.

Lemma append_empty_r (s : string) : s +:+ EmptyString = s.
Proof.
  induction s as [|a s IH]; [reflexivity |]. by rewrite append_cons, IH.
Qed.

Lemma append_assoc (s1 s2 s3 : string) : (s1 +:+ s2) +:+ s3 = s1 +:+ s2 +:+ s3.
Proof.
  induction s1 as [|a s1 IH]; [reflexivity |]. by rewrite !append_cons, IH.
Qed.

Lemma split_not_nil (s : string) : Py.split sep s <> [].
Proof.
  destruct s as [|a s]; simpl; [discriminate |].
  destruct (Ascii.eqb a sep); [discriminate |].
  destruct (Py.split sep s); discriminate.
Qed.

(** The first piece holds no separator; either it is the whole string, or
    the string is that piece, a separator and what the other pieces split. *)
Lemma split_head (s : string) :
  exists h t, Py.split sep s = h :: t /\ Py.contains sep h = false /\
    match t with
    | [] => s = h
    | _ :: _ => exists s', s = h +:+ String sep s' /\ Py.split sep s' = t
    end.
Proof.
  induction s as [|a s IH]; simpl.
  - exists EmptyString, []. auto.
  - destruct (Ascii.eqb_spec a sep) as [->|Hne].
    + exists EmptyString, (Py.split sep s). split; [reflexivity |]. split; [reflexivity |].
      pose proof (split_not_nil s) as Hnil.
      destruct (Py.split sep s) eqn:E; [congruence |].
      exists s. split; [reflexivity | exact E].
    + destruct IH as (h & t & -> & Hh & Ht).
      exists (String a h), t. split; [reflexivity |]. split.
      * simpl. rewrite Hh. apply Ascii.eqb_neq in Hne. by rewrite Hne.
      * destruct t as [|x t].
        -- by rewrite Ht.
        -- destruct Ht as (s' & -> & Hs'). exists s'. by rewrite append_cons.
Qed.

Lemma split_no_sep (s : string) : Py.contains sep s = false -> Py.split sep s = [s].
Proof.
  induction s as [|a s IH]; simpl; [reflexivity |].
  intros H. apply orb_false_iff in H as [Ha Hs].
  rewrite Ha. by rewrite (IH Hs).
Qed.

Lemma split_one_piece (s : string) :
  Py.contains sep s = true -> exists h x t, Py.split sep s = h :: x :: t.
Proof.
  induction s as [|a s IH]; simpl; [discriminate |].
  destruct (Ascii.eqb a sep) eqn:Ea; simpl.
  - intros _. pose proof (split_not_nil s) as Hnil.
    destruct (Py.split sep s) as [|x t]; [congruence |]. by exists EmptyString, x, t.
  - intros H. destruct (IH H) as (h & x & t & ->). by exists (String a h), x, t.
Qed.


End StringFacts.

(** ** The rewriter *)

Section Rewriter.

Lemma split_image_tag_no_colon (full : string) :
  Py.contains ":" full = false -> split_image_tag full = (full, "latest").
Proof.
  intros H. unfold split_image_tag. by rewrite (split_no_sep _ _ H).
Qed.

(** On strings the rewriter never raises. *)
Lemma process_image_str (full : string) (m : gmap string string) :
  exists out, process_image (Some full) m = Ok (Some out).
Proof.
  unfold process_image. case_bool_decide; [by eexists |].
  destruct (split_image_tag full) as [image tag].
  destruct (Py.contains "." image).
  - destruct (m !! _); by eexists.
  - destruct (truthy _); by eexists.
Qed.

(** What [split_image_tag] does on every reference: it cuts at the FIRST
    colon. The image is the text before the first colon and holds no colon;
    the tag is the text between the first and the second colon (all that
    follows the first colon when there is no second one), and ["latest"]
    when the reference has no colon at all. *)
Theorem split_image_tag_first_colon (full : string) :
  exists image tag,
    split_image_tag full = (image, tag) /\
    Py.contains ":" image = false /\
    ((Py.contains ":" full = false /\ image = full /\ tag = "latest") \/
     (Py.contains ":" full = true /\ Py.contains ":" tag = false /\
      exists rest, full = image +:+ ":" +:+ tag +:+ rest /\
                   (rest = EmptyString \/ exists r, rest = String ":" r))).
Proof.
  destruct (Py.contains ":" full) eqn:Hc.
  - unfold split_image_tag.
    destruct (split_head ":" full) as (h & t & Hs & Hh & Ht).
    destruct (split_one_piece ":" full Hc) as (h' & x & t' & Hs').
    rewrite Hs in Hs'. injection Hs' as -> ->.
    destruct Ht as (s' & Hfull & Hsplit).
    destruct (split_head ":" s') as (h2 & t2 & Hs2 & Hh2 & Ht2).
    rewrite Hsplit in Hs2. injection Hs2 as -> ->.
    exists h', h2. rewrite Hs. cbn [Py.first hd].
    split; [reflexivity |]. split; [exact Hh |]. right.
    split; [reflexivity |]. split; [exact Hh2 |].
    destruct t2 as [|y t2].
    + exists EmptyString. subst. split; [by rewrite append_empty_r | by left].
    + destruct Ht2 as (s'' & -> & _). exists (String ":" s'').
      subst. split; [reflexivity | right; by eexists].
  - exists full, "latest". rewrite (split_image_tag_no_colon _ Hc).
    split; [reflexivity |]. split; [exact Hc |]. left. auto.
Qed.

(** C3: the rewriter is to split the raw image on its LAST colon, so that a
    reference with a registry port and a tag is cut at the tag. The script
    does not: [full_image.split(":")] with [i_t[0]] and [i_t[1]] (lines
    175-177) cuts ["registry.local:5000/foo:v1"] at the first colon, takes
    the port and the path for the tag, drops the tag ["v1"], and with the
    mirror table [{"registry.local": "mirror.local"}] returns the malformed
    reference ["mirror.local/:5000/foo"] where the split on the last colon
    gives the image ["registry.local:5000/foo"] and the tag ["v1"]. *)
Lemma split_on_last_colon_fails :
  split_image_tag "registry.local:5000/foo:v1" = ("registry.local", "5000/foo") /\
  RegistryRewriter.split_last_colon "registry.local:5000/foo:v1"
    = ("registry.local:5000/foo", "v1") /\
  process_image (Some "registry.local:5000/foo:v1") {[ "registry.local" := "mirror.local" ]}
    = Ok (Some "mirror.local/:5000/foo") /\
  ~ (forall rawImage,
       split_image_tag rawImage = RegistryRewriter.split_last_colon rawImage).
Proof.
  split; [reflexivity |]. split; [reflexivity |]. split; [by vm_compute |].
  intros H. specialize (H "registry.local:5000/foo:v1"). discriminate H.
Qed.

(** With at most one colon the two ways of cutting agree. *)
Lemma rsplit_once_no_sep (sep : ascii) (s : string) :
  Py.contains sep s = false -> RegistryRewriter.rsplit_once sep s = None.
Proof.
  induction s as [|a s IH]; simpl; [reflexivity |].
  intros H. apply orb_false_iff in H as [Ha Hs]. by rewrite (IH Hs), Ha.
Qed.

Lemma split_piece (sep : ascii) (h s' : string) :
  Py.contains sep h = false ->
  Py.split sep (h +:+ String sep s') = h :: Py.split sep s'.
Proof.
  induction h as [|a h IH]; intros Hh.
  - rewrite append_empty_l. simpl. by rewrite Ascii.eqb_refl.
  - simpl in Hh. apply orb_false_iff in Hh as [Ha Hh].
    rewrite append_cons. simpl. by rewrite Ha, (IH Hh).
Qed.

Lemma rsplit_once_piece (sep : ascii) (h t : string) :
  Py.contains sep t = false ->
  RegistryRewriter.rsplit_once sep (h +:+ String sep t) = Some (h, t).
Proof.
  intros Ht. induction h as [|a h IH].
  - rewrite append_empty_l. simpl.
    by rewrite (rsplit_once_no_sep _ _ Ht), Ascii.eqb_refl.
  - rewrite append_cons. simpl. by rewrite IH.
Qed.

(** X3: An image and a tag without colons, joined by a colon, come apart again
    as that image and that tag, under the script's cut as under the cut at
    the last colon. *)
Lemma split_image_tag_single_colon (image tag : string) :
  Py.contains ":" image = false -> Py.contains ":" tag = false ->
  split_image_tag (image +:+ ":" +:+ tag) = (image, tag) /\
  RegistryRewriter.split_last_colon (image +:+ ":" +:+ tag) = (image, tag).
Proof.
  intros Hi Ht. unfold split_image_tag, RegistryRewriter.split_last_colon.
  change (":" +:+ tag) with (String ":" tag).
  rewrite (split_piece _ _ _ Hi), (split_no_sep _ _ Ht).
  by rewrite (rsplit_once_piece _ _ _ Ht).
Qed.

(** The three rewrites the specification lists. *)
Example rewrite_mirror_hit :
  process_image (Some "my.registry.io/foo/bar:v1") {[ "my.registry.io" := "mirror.local" ]}
  = Ok (Some "mirror.local/foo/bar:v1").
Proof. by vm_compute. Qed.

Example rewrite_default_latest :
  process_image (Some "foo/bar") {[ "default" := "mirror.local" ]}
  = Ok (Some "mirror.local/foo/bar:latest").
Proof. by vm_compute. Qed.

Example rewrite_empty_table :
  process_image (Some "foo/bar:v2") ∅ = Ok (Some "foo/bar:v2").
Proof. by vm_compute. Qed.



End Rewriter.

(** ** The extractor *)

Section ExtractorFacts.
Variable parse_value : Node -> ChartSpec -> string -> Binding -> string -> pyval.
Variable add_branch_to_dict : Node -> Binding -> pyval -> Node.
Variable args : Args.
Variable parsed : Node.
Variable values : ChartSpec.
Variable image_name : string.

Local Abbreviation resolve v k := (parse_value parsed values image_name v k).
Local Abbreviation prefix := (registry_prefix args).
Local Abbreviation on_registry :=
  (registry_step parse_value add_branch_to_dict args parsed values image_name).
Local Abbreviation on_repository_tag :=
  (repository_tag_step parse_value add_branch_to_dict args parsed values image_name).
Local Abbreviation on_remove := (remove_step add_branch_to_dict).
Local Abbreviation passes :=
  (run_passes parse_value add_branch_to_dict args parsed values image_name).
Local Abbreviation extract :=
  (extract_image parse_value add_branch_to_dict args parsed values image_name).
Local Abbreviation apply_all := (apply_writes add_branch_to_dict).
Local Abbreviation found := (registry_found parse_value parsed values image_name).
Local Abbreviation writes_registry :=
  (registry_writes parse_value args parsed values image_name).
Local Abbreviation writes_repository_tag :=
  (repository_tag_writes parse_value args parsed values image_name).

Lemma apply_writes_app (ws1 ws2 : list (Binding * pyval)) (tree : Node) :
  apply_all (ws1 ++ ws2) tree = apply_all ws2 (apply_all ws1 tree).
Proof. apply fold_left_app. Qed.

(** *** What each pass does to the variables of the loop body *)

Lemma registry_pass (l : ImageFieldSpec) (st : locals) :
  let st' := fold_left on_registry l st in
  registry st' =
    fold_left (fun acc '(k, v) => if String.eqb k "registry" then resolve v k else acc)
      l (registry st) /\
  repository st' = repository st /\ tag st' = tag st /\
  overrides st' = apply_all (writes_registry l) (overrides st).
Proof.
  revert st. induction l as [|[k v] l IH]; intros st; [by cbn |].
  cbn [fold_left]. destruct (IH (on_registry st (k, v))) as (Hr & Hp & Ht & Ho).
  cbn zeta. rewrite Hr, Hp, Ht, Ho. clear IH Hr Hp Ht Ho.
  unfold registry_writes. cbn [flat_map]. rewrite apply_writes_app.
  unfold registry_step. destruct (String.eqb k "registry"); [| by cbn].
  cbn [registry repository tag overrides].
  destruct (truthy (resolve v k)); by cbn.
Qed.

Lemma repository_tag_pass (l : ImageFieldSpec) (st : locals) :
  let st' := fold_left on_repository_tag l st in
  registry st' = registry st /\
  overrides st' = apply_all (writes_repository_tag (registry st) l) (overrides st).
Proof.
  revert st. induction l as [|[k v] l IH]; intros st; [by cbn |].
  cbn [fold_left]. destruct (IH (on_repository_tag st (k, v))) as (Hr & Ho).
  cbn zeta. rewrite Hr, Ho. clear IH Hr Ho.
  unfold repository_tag_writes. cbn [flat_map]. rewrite apply_writes_app.
  unfold repository_tag_step.
  destruct (String.eqb k "repository").
  - destruct (b_name v); cbn [registry overrides]; [by cbn |].
    split; [reflexivity |]. by destruct (truthy (registry st)).
  - destruct (String.eqb k "tag"); by cbn.
Qed.

Lemma remove_pass (l : ImageFieldSpec) (st : locals) :
  let st' := fold_left on_remove l st in
  registry st' = registry st /\ repository st' = repository st /\ tag st' = tag st /\
  overrides st' = apply_all (remove_writes l) (overrides st).
Proof.
  revert st. induction l as [|[k v] l IH]; intros st; [by cbn |].
  cbn [fold_left]. destruct (IH (on_remove st (k, v))) as (Hr & Hp & Ht & Ho).
  cbn zeta. rewrite Hr, Hp, Ht, Ho. clear IH Hr Hp Ht Ho.
  unfold remove_writes. cbn [flat_map]. rewrite apply_writes_app.
  unfold remove_step. by destruct (String.eqb k "remove").
Qed.

(** *** The passes together *)

(** The three loops leave the registry of the first loop in [registry] and
    make the calls of the three traces in order. *)
Lemma passes_trace (image_data : ImageFieldSpec) (vals : Node) :
  registry (passes image_data vals) = found image_data /\
  overrides (passes image_data vals) =
    apply_all
      (writes_registry image_data ++
       writes_repository_tag (found image_data) image_data ++
       remove_writes image_data) vals.
Proof.
  unfold run_passes.
  set (st0 := {| registry := None; repository := None; tag := None; overrides := vals |}).
  destruct (registry_pass image_data st0) as (Hr1 & _ & _ & Ho1).
  destruct (repository_tag_pass image_data (fold_left on_registry image_data st0))
    as (Hr2 & Ho2).
  destruct (remove_pass image_data
              (fold_left on_repository_tag image_data
                 (fold_left on_registry image_data st0))) as (Hr3 & _ & _ & Ho3).
  cbn zeta in *. split.
  - rewrite Hr3, Hr2, Hr1. reflexivity.
  - rewrite Ho3, Ho2, Ho1, Hr1, !apply_writes_app. reflexivity.
Qed.

(** A dict has each key once, so a role is looked up with [dict_get]. *)
Lemma binding_In (image_data : ImageFieldSpec) (k : string) (v : Binding) :
  NoDup (dict_keys image_data) ->
  In (k, v) image_data <-> dict_get image_data k = Some v.
Proof.
  induction image_data as [|[k' v'] l IH]; intros Hnd; [by cbn |].
  apply NoDup_cons in Hnd as [Hk' Hnd]. rewrite list_elem_of_In in Hk'. cbn [dict_get In].
  destruct (String.eqb_spec k' k) as [->|Hne].
  - split.
    + intros [[= ->]|Hin]; [reflexivity |].
      exfalso. apply Hk'. apply (in_map fst) in Hin. exact Hin.
    + intros [= ->]. by left.
  - rewrite <- (IH Hnd). split.
    + intros [[= -> _]|Hin]; [by destruct Hne | exact Hin].
    + intros Hin. by right.
Qed.

Lemma registry_found_get (image_data : ImageFieldSpec) :
  NoDup (dict_keys image_data) ->
  found image_data =
    match dict_get image_data "registry" with
    | Some vr => resolve vr "registry"
    | None => None
    end.
Proof.
  unfold registry_found. generalize (@None string).
  induction image_data as [|[k v] l IH]; intros acc Hnd; [reflexivity |].
  apply NoDup_cons in Hnd as [Hk Hnd]. rewrite list_elem_of_In in Hk. cbn [fold_left dict_get].
  destruct (String.eqb_spec k "registry") as [->|_]; [| by apply IH].
  rewrite (IH _ Hnd).
  destruct (dict_get l "registry") as [v'|] eqn:Hget; [| reflexivity].
  exfalso. apply Hk. apply (binding_In l "registry" v' Hnd) in Hget.
  apply (in_map fst) in Hget. exact Hget.
Qed.

Lemma registry_writes_none (image_data : ImageFieldSpec) :
  ~ In "registry" (dict_keys image_data) -> writes_registry image_data = [].
Proof.
  unfold registry_writes.
  induction image_data as [|[k v] l IH]; intros Hk; [reflexivity |].
  cbn [flat_map]. destruct (String.eqb_spec k "registry") as [->|_].
  - exfalso. apply Hk. by left.
  - apply IH. intros Hin. apply Hk. by right.
Qed.

Lemma registry_writes_get (image_data : ImageFieldSpec) :
  NoDup (dict_keys image_data) ->
  writes_registry image_data =
    match dict_get image_data "registry" with
    | Some vr =>
        if truthy (resolve vr "registry")
        then [(vr, Some (prefix +:+ fmt (resolve vr "registry")))]
        else []
    | None => []
    end.
Proof.
  induction image_data as [|[k v] l IH]; intros Hnd; [reflexivity |].
  apply NoDup_cons in Hnd as [Hk Hnd]. rewrite list_elem_of_In in Hk.
  change (writes_registry ((k, v) :: l)) with
    ((if String.eqb k "registry" then
        if truthy (resolve v k) then [(v, Some (prefix +:+ fmt (resolve v k)))] else []
      else []) ++ writes_registry l).
  cbn [dict_get]. destruct (String.eqb_spec k "registry") as [->|_].
  - rewrite (registry_writes_none l Hk). apply app_nil_r.
  - by apply IH.
Qed.

Lemma repository_tag_writes_In (reg : pyval) (image_data : ImageFieldSpec)
    (w : Binding * pyval) :
  NoDup (dict_keys image_data) ->
  In w (writes_repository_tag reg image_data) <->
  (exists vp, dict_get image_data "repository" = Some vp /\ b_name vp = None /\
     w = (vp, if truthy reg then resolve vp "repository"
              else Some (prefix +:+ fmt (resolve vp "repository")))) \/
  (exists vt, dict_get image_data "tag" = Some vt /\ w = (vt, resolve vt "tag")).
Proof.
  intros Hnd. unfold repository_tag_writes. rewrite in_flat_map. split.
  - intros ([k v] & Hin & Hw). apply (binding_In _ _ _ Hnd) in Hin.
    destruct (String.eqb_spec k "repository") as [->|_].
    + destruct (b_name v) eqn:Hname; [destruct Hw |].
      destruct Hw as [<-|[]]. left. by exists v.
    + destruct (String.eqb_spec k "tag") as [->|_]; [| destruct Hw].
      destruct Hw as [<-|[]]. right. by exists v.
  - intros [(vp & Hget & Hname & ->)|(vt & Hget & ->)].
    + exists ("repository", vp). split; [by apply (binding_In _ _ _ Hnd) |].
      cbn. rewrite Hname. by left.
    + exists ("tag", vt). split; [by apply (binding_In _ _ _ Hnd) |].
      cbn. by left.
Qed.

(** C5 (as amended): the overrides of an image are the calls of the three
    loops in order, where, [reg] being the value of the registry binding
    in the chart's values ([None] without such a binding or value):
    the registry override, [reg] with the destination prefix, is written
    exactly when [reg] is truthy, that is found and not empty; a repository
    binding given by reference is written as it resolved when [reg] is
    truthy and with the destination prefix before it when [reg] is not, an
    empty registry included; a repository binding with a literal name is
    not written at all; a tag binding is written as it resolved. *)
Theorem repository_override_follows_registry (image_data : ImageFieldSpec) (vals : Node) :
  NoDup (dict_keys image_data) ->
  let reg := match dict_get image_data "registry" with
             | Some vr => resolve vr "registry"
             | None => None
             end in
  registry (passes image_data vals) = reg /\
  overrides (passes image_data vals) =
    apply_all
      (writes_registry image_data ++ writes_repository_tag reg image_data ++
       remove_writes image_data) vals /\
  writes_registry image_data =
    match dict_get image_data "registry" with
    | Some vr => if truthy reg then [(vr, Some (prefix +:+ fmt reg))] else []
    | None => []
    end /\
  forall w,
    In w (writes_repository_tag reg image_data) <->
    (exists vp, dict_get image_data "repository" = Some vp /\ b_name vp = None /\
       w = (vp, if truthy reg then resolve vp "repository"
                else Some (prefix +:+ fmt (resolve vp "repository")))) \/
    (exists vt, dict_get image_data "tag" = Some vt /\ w = (vt, resolve vt "tag")).
Proof.
  intros Hnd reg.
  destruct (passes_trace image_data vals) as [Hreg Hover].
  rewrite (registry_found_get image_data Hnd) in Hreg, Hover. fold reg in Hreg, Hover.
  split; [exact Hreg |]. split; [exact Hover |]. split.
  - rewrite (registry_writes_get image_data Hnd). subst reg.
    by destruct (dict_get image_data "registry").
  - intros w. by apply repository_tag_writes_In.
Qed.

Lemma fold_left_skip {A B : Type} (f : A -> B -> A) (keep : B -> bool) (l : list B) (a : A) :
  (forall a b, keep b = false -> f a b = a) ->
  fold_left f (List.filter keep l) a = fold_left f l a.
Proof.
  intros Hskip. revert a. induction l as [|b l IH]; intros a; [reflexivity |].
  cbn [List.filter fold_left]. destruct (keep b) eqn:Hb.
  - cbn [fold_left]. apply IH.
  - rewrite (Hskip a b Hb). apply IH.
Qed.

(** C7 (as amended): a binding under a role other than registry,
    repository, tag and remove is skipped by all three loops: the extractor
    returns the override tree and the image it returns with every such
    binding deleted from the image spec, and raises nothing for it. *)
Theorem unknown_role_ignored (image_data : ImageFieldSpec) (vals : Node) :
  extract (List.filter (fun kv => known_role (fst kv)) image_data) vals
  = extract image_data vals.
Proof.
  unfold extract_image, run_passes.
  assert (Hreg : forall l st, fold_left on_registry
            (List.filter (fun kv => known_role (fst kv)) l) st = fold_left on_registry l st).
  { intros l st. apply fold_left_skip. intros a [k v]. unfold known_role, registry_step.
    cbn [fst]. intros H. repeat (apply orb_false_iff in H as [H ?]). by rewrite H. }
  assert (Hrep : forall l st, fold_left on_repository_tag
            (List.filter (fun kv => known_role (fst kv)) l) st
            = fold_left on_repository_tag l st).
  { intros l st. apply fold_left_skip. intros a [k v].
    unfold known_role, repository_tag_step.
    cbn [fst]. intros H. repeat (apply orb_false_iff in H as [H ?]).
    replace (String.eqb k "repository") with false by done.
    by replace (String.eqb k "tag") with false by done. }
  assert (Hrem : forall l st, fold_left on_remove
            (List.filter (fun kv => known_role (fst kv)) l) st = fold_left on_remove l st).
  { intros l st. apply fold_left_skip. intros a [k v]. unfold known_role, remove_step.
    cbn [fst]. intros H. repeat (apply orb_false_iff in H as [H ?]).
    by replace (String.eqb k "remove") with false by done. }
  by rewrite Hreg, Hrep, Hrem.
Qed.

(** When no repository binding resolves, [repository] is still [None]
    after the passes. *)
Lemma repository_unresolved (image_data : ImageFieldSpec) (vals : Node) :
  (forall v, In ("repository", v) image_data ->
             b_name v = None /\ resolve v "repository" = None) ->
  repository (passes image_data vals) = None.
Proof.
  intros Hmiss. unfold run_passes.
  set (st0 := {| registry := None; repository := None; tag := None; overrides := vals |}).
  destruct (registry_pass image_data st0) as (_ & Hp1 & _).
  destruct (remove_pass image_data
              (fold_left on_repository_tag image_data
                 (fold_left on_registry image_data st0))) as (_ & Hp3 & _).
  cbn zeta in *. rewrite Hp3. clear Hp3.
  change (repository st0) with (@None string) in Hp1.
  revert Hp1. generalize (fold_left on_registry image_data st0). clear st0.
  induction image_data as [|[k v] l IH]; intros st Hst; [exact Hst |].
  cbn [fold_left]. apply IH.
  - intros v' Hin. apply Hmiss. by right.
  - unfold repository_tag_step.
    destruct (String.eqb_spec k "repository") as [->|_].
    + destruct (Hmiss v (or_introl eq_refl)) as [-> ->]. reflexivity.
    + by destruct (String.eqb k "tag").
Qed.

(** What the loop does with an image whose repository does not resolve:
    it is not skipped. Its iteration still appends one entry to the raw
    image list:
    [None] when neither a registry nor a tag resolved, and the registry
    followed by ["/None"] (and the tag, if one resolved) when a registry
    resolved; a tag that resolved without a registry makes the iteration
    raise. A registry binding that does not resolve writes no override. *)
Theorem unresolved_repository_still_appended
    (image_data : ImageFieldSpec) (rest : list (string * ImageFieldSpec))
    (vals : Node) (images_wip : list pyval) :
  (forall v, In ("repository", v) image_data ->
             b_name v = None /\ resolve v "repository" = None) ->
  let st := passes image_data vals in
  walk_images parse_value add_branch_to_dict args parsed values
    ((image_name, image_data) :: rest) vals images_wip
  = (if truthy (registry st) then
       walk_images parse_value add_branch_to_dict args parsed values rest (overrides st)
         (images_wip ++
            [Some (fmt (registry st) +:+ "/" +:+ "None" +:+
                   (if truthy (tag st) then ":" +:+ fmt (tag st) else EmptyString))])
     else if truthy (tag st) then Raise TypeError
     else
       walk_images parse_value add_branch_to_dict args parsed values rest (overrides st)
         (images_wip ++ [None]))
  /\ (forall st0 v, truthy (resolve v "registry") = false ->
        overrides (on_registry st0 ("registry", v)) = overrides st0).
Proof.
  intros Hmiss st. split.
  - pose proof (repository_unresolved image_data vals Hmiss) as Hrep.
    cbn [walk_images]. unfold extract_image, assemble_image.
    fold st in Hrep |- *. rewrite Hrep.
    destruct (truthy (registry st)), (truthy (tag st)); cbn;
      rewrite ?append_assoc, ?append_empty_r; reflexivity.
  - intros st0 v Hv. unfold registry_step. cbn. by rewrite Hv.
Qed.

End ExtractorFacts.

(** ** Dicts *)

Section DictFacts.
Context {V : Type}.
Implicit Types (d : list (string * V)) (k : string) (v : V).

Lemma dict_get_set_eq d k v : dict_get (dict_set d k v) k = Some v.
Proof.
  induction d as [|[k' v'] d IH]; cbn.
  - by rewrite String.eqb_refl.
  - destruct (String.eqb k' k) eqn:E; cbn; [by rewrite String.eqb_refl | by rewrite E].
Qed.

Lemma dict_get_set_ne d k k' v : k <> k' -> dict_get (dict_set d k v) k' = dict_get d k'.
Proof.
  intros Hne. induction d as [|[k0 v0] d IH]; cbn.
  - apply String.eqb_neq in Hne. by rewrite Hne.
  - destruct (String.eqb_spec k0 k) as [->|Hk0]; cbn.
    + apply String.eqb_neq in Hne. by rewrite Hne.
    + by rewrite IH.
Qed.

Lemma dict_get_None d k : dict_get d k = None <-> ~ In k (dict_keys d).
Proof.
  induction d as [|[k' v'] d IH]; cbn; [tauto |].
  destruct (String.eqb_spec k' k) as [->|Hne]; [split; [discriminate | tauto] |].
  rewrite IH. tauto.
Qed.

(** [del d[k]] removes the key of a dict. *)
Lemma dict_get_del d k : NoDup (dict_keys d) -> dict_get (dict_del d k) k = None.
Proof.
  induction d as [|[k' v'] d IH]; cbn; [reflexivity |].
  intros Hnd. apply NoDup_cons in Hnd as [Hk' Hnd].
  destruct (String.eqb_spec k' k) as [->|Hne].
  - apply dict_get_None. by rewrite <- list_elem_of_In.
  - cbn. apply String.eqb_neq in Hne. rewrite Hne. by apply IH.
Qed.


End DictFacts.

(** ** The walk over the workloads and the run *)

Section WalkFacts.
Variable helm_show : string -> string -> string -> Node.
Variable helm_show_subchart : string -> string -> string -> string -> string -> Node.
Variable parse_value : Node -> ChartSpec -> string -> Binding -> string -> pyval.
Variable add_branch_to_dict : Node -> Binding -> pyval -> Node.
Variable project_path : string.

Local Abbreviation walk_workload_ := (walk_workload parse_value add_branch_to_dict).
Local Abbreviation walk_ := (walk parse_value add_branch_to_dict).
Local Abbreviation main_ :=
  (main helm_show helm_show_subchart parse_value add_branch_to_dict project_path).
Local Abbreviation parsed_charts_ :=
  (get_parsed_charts helm_show helm_show_subchart project_path).

(** One workload stores its own entry and leaves the other keys alone. *)
Lemma walk_workload_entry args pc ccv imgs w spec st' :
  walk_workload_ args pc (ccv, imgs) (w, spec) = Ok st' ->
  (exists entry, dict_get (fst st') w = Some entry /\
     helm entry = helm_block args spec /\
     (images spec = None -> values entry = NMap [])) /\
  (forall k, k <> w -> dict_get (fst st') k = dict_get ccv k).
Proof.
  unfold walk_workload. destruct (images spec) as [specs|].
  - destruct (dict_get pc w) as [parsed|]; [| discriminate].
    destruct (walk_images _ _ _ _ _ _ _ _) as [[vals imgs']|e]; [| discriminate].
    cbn. intros [= <-]. cbn. split.
    + eexists. rewrite dict_get_set_eq. split; [reflexivity |]. cbn. by split.
    + intros k Hk. by apply dict_get_set_ne.
  - intros [= <-]. cbn. split.
    + eexists. rewrite dict_get_set_eq. split; [reflexivity |]. cbn. by split.
    + intros k Hk. by apply dict_get_set_ne.
Qed.

Lemma walk_other_keys args pc wl st st' k :
  walk_ args pc wl st = Ok st' -> ~ In k (dict_keys wl) ->
  dict_get (fst st') k = dict_get (fst st) k.
Proof.
  revert st. induction wl as [|[w spec] wl IH]; intros [ccv imgs] Hwalk Hk.
  - by injection Hwalk as <-.
  - cbn [walk] in Hwalk.
    destruct (walk_workload_ args pc (ccv, imgs) (w, spec)) as [st1|e] eqn:E1;
      [| discriminate].
    cbn in Hwalk, Hk. rewrite (IH st1 Hwalk) by tauto.
    apply (walk_workload_entry _ _ _ _ _ _ _ E1). intros ->. tauto.
Qed.

(** After the walk every workload of the dict has its entry. *)
Lemma walk_entries args pc wl st st' :
  NoDup (dict_keys wl) -> walk_ args pc wl st = Ok st' ->
  forall w spec, In (w, spec) wl ->
    exists entry, dict_get (fst st') w = Some entry /\
      helm entry = helm_block args spec /\
      (images spec = None -> values entry = NMap []).
Proof.
  revert st. induction wl as [|[w0 spec0] wl IH]; intros [ccv imgs] Hnd Hwalk w spec Hin;
    [destruct Hin |].
  cbn [walk] in Hwalk.
  destruct (walk_workload_ args pc (ccv, imgs) (w0, spec0)) as [st1|e] eqn:E1;
    [| discriminate].
  cbn in Hwalk, Hnd. apply NoDup_cons in Hnd as [Hw0 Hnd].
  destruct Hin as [[= -> ->]|Hin].
  - rewrite (walk_other_keys _ _ _ _ _ _ Hwalk) by (by rewrite <- list_elem_of_In).
    apply (walk_workload_entry _ _ _ _ _ _ _ E1).
  - by apply (IH st1 Hnd Hwalk).
Qed.

(** The rule keeps every entry, its helm block and an empty override tree. *)
Lemma cert_manager_rule_keeps ccv ccv' w entry :
  cert_manager_rule ccv = Ok ccv' -> dict_get ccv w = Some entry ->
  exists entry', dict_get ccv' w = Some entry' /\ helm entry' = helm entry /\
    (values entry = NMap [] -> values entry' = NMap []).
Proof.
  unfold cert_manager_rule. intros Hrule Hw.
  destruct (dict_get ccv "cert_manager") as [cm|] eqn:Hcm; [| discriminate].
  destruct (subscript (values cm) "appVersion") as [appVersion|e] eqn:Hsub; [| discriminate].
  cbn in Hrule. destruct (node_truthy appVersion).
  - destruct (values cm) as [| | |kvs] eqn:Hv; try discriminate. injection Hrule as <-.
    destruct (String.eqb_spec "cert_manager" w) as [<-|Hne].
    + rewrite dict_get_set_eq. eexists. split; [reflexivity |]. cbn.
      rewrite Hcm in Hw. injection Hw as <-. split; [reflexivity |].
      intros Hnil. rewrite Hv in Hnil. injection Hnil as ->. discriminate Hsub.
    + rewrite dict_get_set_ne by done. by exists entry.
  - injection Hrule as <-. by exists entry.
Qed.

Lemma helm_block_keys args spec :
  dict_get (helm_block args spec) "name" = Some (chart_name spec) /\
  dict_get (helm_block args spec) "version" = Some (chart_version spec) /\
  is_Some (dict_get (helm_block args spec) "repository").
Proof. unfold helm_block. destruct (replicate_charts args); cbn; eauto. Qed.

Lemma main_written args cat m l :
  main_ args cat = Written m l ->
  exists ccv imgs,
    walk_ args (parsed_charts_ (workloads_data cat)) (workloads_data cat)
      ([], Some <$> dict_values (additional_images cat)) = Ok (ccv, imgs) /\
    image_mapping_list args cat imgs = Ok l /\
    cert_manager_rule ccv = Ok (charts m).
Proof.
  unfold main.
  destruct (walk_ _ _ _ _) as [[ccv imgs]|e] eqn:Hwalk; cbn; [| discriminate].
  destruct (image_mapping_list args cat imgs) as [l'|e] eqn:Hmap; cbn; [| discriminate].
  destruct (cert_manager_rule ccv) as [ccv'|e] eqn:Hrule; [| discriminate].
  intros [= <- <-]. exists ccv, imgs. by rewrite Hmap, Hrule.
Qed.

(** C8: when the documents are written, every workload of the catalog has
    its entry in the charts document, with the helm block of lines 78-89,
    which holds name, repository and version. A workload without an
    ["images"] key has an empty override tree there, and its iteration
    never fails and leaves the raw image list as it was. *)
Theorem every_workload_in_charts args cat m l w spec :
  NoDup (dict_keys (workloads_data cat)) ->
  main_ args cat = Written m l ->
  In (w, spec) (workloads_data cat) ->
  (exists entry, dict_get (charts m) w = Some entry /\
     helm entry = helm_block args spec /\
     dict_get (helm entry) "name" = Some (chart_name spec) /\
     dict_get (helm entry) "version" = Some (chart_version spec) /\
     is_Some (dict_get (helm entry) "repository") /\
     (images spec = None -> values entry = NMap [])) /\
  (images spec = None ->
   forall pc ccv images_wip,
     walk_workload_ args pc (ccv, images_wip) (w, spec)
     = Ok (dict_set ccv w {| helm := helm_block args spec; values := NMap [] |},
           images_wip)).
Proof.
  intros Hnd Hmain Hin. split.
  - destruct (main_written _ _ _ _ Hmain) as (ccv & imgs & Hwalk & _ & Hrule).
    destruct (walk_entries _ _ _ _ _ Hnd Hwalk w spec Hin) as (entry & Hget & Hhelm & Hvals).
    destruct (cert_manager_rule_keeps _ _ _ _ Hrule Hget) as (entry' & Hget' & Hhelm' & Hvals').
    exists entry'. rewrite Hhelm', Hhelm.
    destruct (helm_block_keys args spec) as (Hn & Hv & Hr). auto 10.
  - intros Himg pc ccv images_wip. unfold walk_workload. by rewrite Himg.
Qed.

(** Every workload has its [parsed_charts] entry, so that the lookup at
    lines 104-137 never raises. *)
Lemma get_parsed_charts_defined wl w spec :
  In (w, spec) wl -> is_Some (dict_get (parsed_charts_ wl) w).
Proof.
  unfold get_parsed_charts. generalize (@nil (string * Node)) as acc.
  assert (Hkeep : forall l acc, is_Some (dict_get acc w) ->
            is_Some (dict_get
              (fold_left (fun pc '(workload, values) =>
                 dict_set pc workload
                   (show_workload helm_show helm_show_subchart project_path workload values))
                 l acc) w)).
  { induction l as [|[w' spec'] l IH]; intros acc Hacc; [exact Hacc |].
    cbn [fold_left]. apply IH. destruct (String.eqb_spec w' w) as [->|Hne].
    - rewrite dict_get_set_eq. by eexists.
    - by rewrite dict_get_set_ne. }
  induction wl as [|[w' spec'] wl IH]; intros acc Hin; [destruct Hin |].
  cbn [fold_left]. destruct Hin as [[= -> ->]|Hin].
  - apply Hkeep. rewrite dict_get_set_eq. by eexists.
  - by apply IH.
Qed.

(** The walk only appends to [images_wip]: the additional images stay in
    front of the chart images. *)
Lemma walk_images_extends args parsed spec specs vals imgs vals' imgs' :
  walk_images parse_value add_branch_to_dict args parsed spec specs vals imgs
    = Ok (vals', imgs') ->
  exists new, imgs' = imgs ++ new /\ length new = length specs.
Proof.
  revert vals imgs. induction specs as [|[image_name image_data] specs IH];
    intros vals imgs Hwalk.
  - injection Hwalk as <- <-. exists []. by rewrite app_nil_r.
  - cbn [walk_images] in Hwalk.
    destruct (extract_image _ _ _ _ _ _ _ _) as [[vals1 image]|e]; [| discriminate].
    cbn in Hwalk. destruct (IH _ _ Hwalk) as (new & -> & Hlen).
    exists (image :: new). rewrite <- app_assoc. cbn. by rewrite Hlen.
Qed.

Lemma walk_extends args pc wl ccv imgs ccv' imgs' :
  walk_ args pc wl (ccv, imgs) = Ok (ccv', imgs') -> exists new, imgs' = imgs ++ new.
Proof.
  revert ccv imgs. induction wl as [|[w spec] wl IH]; intros ccv imgs Hwalk.
  - injection Hwalk as <- <-. exists []. by rewrite app_nil_r.
  - cbn [walk] in Hwalk.
    destruct (walk_workload_ args pc (ccv, imgs) (w, spec)) as [[ccv1 imgs1]|e] eqn:Hstep;
      [| discriminate].
    cbn in Hwalk. destruct (IH _ _ Hwalk) as (new & ->).
    unfold walk_workload in Hstep. destruct (images spec) as [specs|].
    + destruct (dict_get pc w) as [parsed|]; [| discriminate].
      destruct (walk_images _ _ _ _ _ _ _ _) as [[vals1 imgs2]|e] eqn:Himgs; [| discriminate].
      injection Hstep as <- <-.
      destruct (walk_images_extends _ _ _ _ _ _ _ _ Himgs) as (new1 & -> & _).
      exists (new1 ++ new). by rewrite app_assoc.
    + injection Hstep as <- <-. by exists new.
Qed.

(** Once the walk and the mapping list went through, the rule decides. *)
Lemma main_after_walk args cat ccv imgs l :
  walk_ args (parsed_charts_ (workloads_data cat)) (workloads_data cat)
    ([], Some <$> dict_values (additional_images cat)) = Ok (ccv, imgs) ->
  image_mapping_list args cat imgs = Ok l ->
  main_ args cat =
    match cert_manager_rule ccv with
    | Ok ccv' =>
        Written {| ami := ami_version cat; charts := ccv';
                   additional_images_out := updated_additional_images args cat |} l
    | Raise e => Aborted e true
    end.
Proof. intros Hwalk Hmap. unfold main. rewrite Hwalk. cbn. by rewrite Hmap. Qed.

(** C10: with ["appVersion"] among cert_manager's overrides the rule never
    raises; it deletes the key when the stored value is truthy and only
    then, so that a falsy override stays in the manifest that is written. *)
Theorem falsy_appVersion_retained args cat ccv imgs l entry kvs v :
  walk_ args (parsed_charts_ (workloads_data cat)) (workloads_data cat)
    ([], Some <$> dict_values (additional_images cat)) = Ok (ccv, imgs) ->
  image_mapping_list args cat imgs = Ok l ->
  dict_get ccv "cert_manager" = Some entry ->
  values entry = NMap kvs ->
  dict_get kvs "appVersion" = Some v ->
  let ccv' :=
    if node_truthy v then
      dict_set ccv "cert_manager"
        {| helm := helm entry; values := NMap (dict_del kvs "appVersion") |}
    else ccv in
  cert_manager_rule ccv = Ok ccv' /\
  main_ args cat =
    Written {| ami := ami_version cat; charts := ccv';
               additional_images_out := updated_additional_images args cat |} l.
Proof.
  intros Hwalk Hmap Hcm Hvals Hkey ccv'.
  assert (Hrule : cert_manager_rule ccv = Ok ccv').
  { unfold cert_manager_rule, ccv'. rewrite Hcm, Hvals. cbn. rewrite Hkey. cbn.
    by destruct (node_truthy v). }
  split; [exact Hrule |]. by rewrite (main_after_walk _ _ _ _ _ Hwalk Hmap), Hrule.
Qed.

(** C6 (as amended): the rule deletes cert_manager's ["appVersion"]
    override when it is there with a truthy value, and the run then writes
    its documents; when the workload or the key is missing the rule raises
    a [KeyError], which is logged and ends the run before any file is
    written. *)
Theorem cert_manager_rule_truthy_or_fatal args cat ccv imgs l :
  walk_ args (parsed_charts_ (workloads_data cat)) (workloads_data cat)
    ([], Some <$> dict_values (additional_images cat)) = Ok (ccv, imgs) ->
  image_mapping_list args cat imgs = Ok l ->
  match dict_get ccv "cert_manager" with
  | None => main_ args cat = Aborted (KeyError "cert_manager") true
  | Some entry =>
      match values entry with
      | NMap kvs =>
          match dict_get kvs "appVersion" with
          | None => main_ args cat = Aborted (KeyError "appVersion") true
          | Some v =>
              node_truthy v = true ->
              main_ args cat =
                Written
                  {| ami := ami_version cat;
                     charts :=
                       dict_set ccv "cert_manager"
                         {| helm := helm entry;
                            values := NMap (dict_del kvs "appVersion") |};
                     additional_images_out := updated_additional_images args cat |} l /\
              (NoDup (dict_keys kvs) ->
               dict_get (dict_del kvs "appVersion") "appVersion" = None)
          end
      | _ => main_ args cat = Aborted TypeError true
      end
  end /\
  (~ In "cert_manager" (dict_keys (workloads_data cat)) ->
   main_ args cat = Aborted (KeyError "cert_manager") true).
Proof.
  intros Hwalk Hmap. rewrite (main_after_walk _ _ _ _ _ Hwalk Hmap).
  unfold cert_manager_rule. split.
  - destruct (dict_get ccv "cert_manager") as [entry|]; [| reflexivity].
    destruct (values entry) as [| | |kvs]; try reflexivity. cbn.
    destruct (dict_get kvs "appVersion") as [v|]; [| reflexivity]. cbn.
    intros ->. split; [reflexivity |]. apply dict_get_del.
  - intros Hnone. pose proof (walk_other_keys _ _ _ _ _ _ Hwalk Hnone) as Hget.
    cbn in Hget. by rewrite Hget.
Qed.

(** *** The replicate-charts flag *)








End WalkFacts.

(** ** The image mapping list *)

Section MappingFacts.
Variable args : Args.
Variable cat : Catalog.

Lemma append_mappings_cons prefix m (image : pyval) (rest : list pyval) (acc : list Mapping) :
  append_mappings prefix m (image :: rest) acc
  = working_image ← process_image image m;
    append_mappings prefix m rest
      (acc ++ [{| src := working_image; target := prefix +:+ fmt image |}]).
Proof. reflexivity. Qed.

Lemma append_mappings_strings (l : list string) (acc : list Mapping) :
  append_mappings (registry_prefix args) (docker_mappings cat) (Some <$> l) acc
  = Ok (acc ++ (entry_of args cat <$> l)).
Proof.
  revert acc. induction l as [|image l IH]; intros acc.
  - cbn. by rewrite app_nil_r.
  - rewrite !fmap_cons, append_mappings_cons. unfold entry_of at 1.
    destruct (process_image_str image (docker_mappings cat)) as [out ->].
    cbn [mbind result_bind rbind].
    rewrite IH. by rewrite <- app_assoc.
Qed.

Lemma py_sorted_set_strings (l : list string) :
  exists sorted_images, py_sorted_set (Some <$> l) = Ok sorted_images.
Proof.
  unfold py_sorted_set.
  destruct (mapM_is_Some_2 id (remove_dups (Some <$> l))) as [strs ->]; [| by eexists].
  apply Forall_forall. intros x Hx. rewrite elem_of_remove_dups in Hx.
  apply list_elem_of_fmap_1 in Hx as (y & -> & _). by eexists.
Qed.

(** X4: On string images the mapping list is the additional images followed by
    [images_wip] as the walk left it: as many entries as both have together,
    in the walk's order, repetitions included. *)
Lemma image_mapping_list_strings (raw : list string) :
  image_mapping_list args cat (Some <$> raw)
  = Ok (entry_of args cat <$> (dict_values (additional_images cat) ++ raw)).
Proof.
  unfold image_mapping_list.
  destruct (py_sorted_set_strings raw) as [sorted_images ->]. cbn.
  rewrite append_mappings_strings. cbn.
  rewrite append_mappings_strings. by rewrite fmap_app.
Qed.

End MappingFacts.

(** ** Runs on the sample catalogs *)

Section Runs.
Import Sample.

Local Abbreviation walk_images_ :=
  (walk_images PathResolver.parse_value PathResolver.add_branch_to_dict).
Local Abbreviation walk_ :=
  (walk PathResolver.parse_value PathResolver.add_branch_to_dict).

Local Ltac run := vm_compute; reflexivity.

(** The two extractor cases of the specification: with a registry the
    repository override is written as it is, without one it takes the
    destination prefix. *)
Example extract_with_registry :
  walk_images_ args0 shown (cert_manager [])
    [("app", [("registry", ref "image.registry"); ("repository", ref "image.repository")])]
    (NMap []) []
  = Ok (NMap [("image",
               NMap [("registry", NStr "999.dkr.ecr.example.com/123.dkr.ecr.example.com");
                     ("repository", NStr "app")])],
        [Some "123.dkr.ecr.example.com/app"]).
Proof. run. Qed.

Example extract_without_registry :
  walk_images_ args0 shown (cert_manager [])
    [("app", [("repository", ref "image.repository")])] (NMap []) []
  = Ok (NMap [("image", NMap [("repository", NStr "999.dkr.ecr.example.com/app")])],
        [Some "app"]).
Proof. run. Qed.

(** C1: on [cat_unsorted] the script writes the four chart images in the
    order of the walk, the repeated one twice, where the specification asks
    for the three distinct images in ascending order: [sorted_images] is
    computed at line 169 and the loop at line 192 runs over [images_wip]. *)
Theorem mapping_list_keeps_walk_order :
  image_mapping_list args0 cat_unsorted
    (Some <$> [controller_image; webhook_image; cainjector_image; cainjector_image])
  = Ok (prefixed <$> [controller_image; webhook_image; cainjector_image; cainjector_image]) /\
  run args0 cat_unsorted
  = Written (manifest [cert_manager_out []] [])
      (prefixed <$> [controller_image; webhook_image; cainjector_image; cainjector_image]) /\
  ResultAssembler.imageMappingList "999.dkr.ecr.example.com/" ∅ []
    [controller_image; webhook_image; cainjector_image; cainjector_image]
  = prefixed <$> [cainjector_image; controller_image; webhook_image].
Proof. split; [run |]. split; run. Qed.

(** With the flag, the helm blocks of both workloads point at the OCI copies
    of the charts. *)
Example run_replicate_charts :
  run args_replicate cat_noimages
  = Written
      (manifest
         [("cert_manager",
           {| helm := [("name", "cert-manager");
                       ("repository",
                        "oci://999.dkr.ecr.example.com/charts.jetstack.io/cert-manager");
                       ("version", "v1.6.1");
                       ("srcRepository", "https://charts.jetstack.io/")];
              values := NMap [] |});
          ("metrics_server",
           {| helm := [("name", "metrics-server");
                       ("repository",
                        "oci://999.dkr.ecr.example.com/metrics-server/metrics-server");
                       ("version", "3.8.2");
                       ("srcRepository",
                        "https://kubernetes-sigs.github.io/metrics-server")];
              values := NMap [] |})] [])
      [prefixed controller_image].
Proof. run. Qed.

(** Without the cert_manager workload nothing is written. *)
Example run_without_cert_manager :
  run args0 (catalog [] ∅ [("metrics_server", metrics_server)])
  = Aborted (KeyError "cert_manager") true.
Proof. run. Qed.

(** C2: an image whose repository does not resolve is to contribute nothing
    to the raw image list, the override of a binding whose path is missing
    is to be omitted, and the run is to continue. The script does none of
    the three: the registry and the tag are tested before they are used
    ([if registry:], [if tag:]) and the repository never is, so the image
    ["miss"], whose repository path [image.nothere] is absent from the
    chart's values, gets the entry [None] in the raw image list and the
    override ["999.dkr.ecr.example.com/None"], and next to the controller
    image that entry ends the run with a [TypeError] at line 169, outside
    the [try] and so without a log line. *)
Lemma unresolved_repository_not_skipped :
  PathResolver.parse_value shown (cert_manager []) "miss" (ref "image.nothere") "repository"
    = None /\
  walk_images_ args0 shown (cert_manager [])
    [("miss", [("repository", ref "image.nothere")])] (NMap []) []
    = Ok (NMap [("image", NMap [("nothere", NStr "999.dkr.ecr.example.com/None")])],
          [None]) /\
  run args0 cat_miss = Aborted TypeError false /\
  ~ (forall parse_value add_branch_to_dict args parsed values image_name
            (image_data : ImageFieldSpec) vals images_wip,
       (forall v, In ("repository", v) image_data ->
                  b_name v = None /\
                  parse_value parsed values image_name v "repository" = None) ->
       exists vals',
         walk_images parse_value add_branch_to_dict args parsed values
           [(image_name, image_data)] vals images_wip = Ok (vals', images_wip)).
Proof.
  split; [run |]. split; [run |]. split; [run |].
  intros H.
  destruct (H PathResolver.parse_value PathResolver.add_branch_to_dict args0 shown
              (cert_manager []) "miss" [("repository", ref "image.nothere")] (NMap []) [])
    as [vals' Hw].
  - intros v [[= <-]|[]]. split; run.
  - vm_compute in Hw. discriminate Hw.
Qed.

Lemma unresolved_repository_still_appended_witness :
  walk_images_ args0 shown (cert_manager [])
    [("miss", [("repository", ref "image.nothere")])] (NMap []) []
  = Ok (NMap [("image", NMap [("nothere", NStr "999.dkr.ecr.example.com/None")])], [None]).
Proof.
  assert (Hmiss : forall v, In ("repository", v) [("repository", ref "image.nothere")] ->
            b_name v = None /\
            PathResolver.parse_value shown (cert_manager []) "miss" v "repository" = None).
  { intros v [[= <-]|[]]. split; vm_compute; reflexivity. }
  pose proof (unresolved_repository_still_appended
                PathResolver.parse_value PathResolver.add_branch_to_dict args0 shown
                (cert_manager []) "miss" [("repository", ref "image.nothere")] []
                (NMap []) [] Hmiss) as Hthm.
  cbv zeta in Hthm. destruct Hthm as [Hwalk _]. vm_compute in Hwalk. exact Hwalk.
Defined.

(** C6 as the specification has it fails: an ["appVersion"] override that is
    there but blank is not removed, and the run goes through. *)
Lemma falsy_appVersion_not_removed :
  run args0 cat_blank
    = Written (manifest [cert_manager_out [("appVersion", NStr EmptyString)]] [])
        [prefixed controller_image] /\
  ~ (forall ccv entry kvs v,
       dict_get ccv "cert_manager" = Some entry ->
       values entry = NMap kvs ->
       dict_get kvs "appVersion" = Some v ->
       exists ccv' entry' kvs',
         cert_manager_rule ccv = Ok ccv' /\
         dict_get ccv' "cert_manager" = Some entry' /\
         values entry' = NMap kvs' /\
         dict_get kvs' "appVersion" = None).
Proof.
  split; [run |]. intros H.
  destruct (H [cert_manager_out [("appVersion", NStr EmptyString)]]
              (snd (cert_manager_out [("appVersion", NStr EmptyString)]))
              [("appVersion", NStr EmptyString)] (NStr EmptyString) eq_refl eq_refl eq_refl)
    as (ccv' & entry' & kvs' & Hrule & Hget & Hvals & Hnone).
  vm_compute in Hrule. injection Hrule as <-.
  vm_compute in Hget. injection Hget as <-.
  vm_compute in Hvals. injection Hvals as <-.
  discriminate Hnone.
Qed.

Lemma cert_manager_rule_truthy_or_fatal_witness :
  run args0 cat_plain
  = Written
      (manifest [cert_manager_out []]
         [("pause", "999.dkr.ecr.example.com/registry.k8s.io/pause:3.9")])
      (prefixed <$> ["registry.k8s.io/pause:3.9"; "registry.k8s.io/pause:3.9";
                     controller_image]).
Proof.
  assert (Hwalk :
    walk_ args0 (get_parsed_charts helm_show helm_show_subchart "/project"
                   (workloads_data cat_plain))
      (workloads_data cat_plain) ([], Some <$> dict_values (additional_images cat_plain))
    = Ok ([cert_manager_out [("appVersion", NStr "v1.6.1")]],
          Some <$> ["registry.k8s.io/pause:3.9"; controller_image])).
  { vm_compute. reflexivity. }
  assert (Hmap :
    image_mapping_list args0 cat_plain
      (Some <$> ["registry.k8s.io/pause:3.9"; controller_image])
    = Ok (prefixed <$> ["registry.k8s.io/pause:3.9"; "registry.k8s.io/pause:3.9";
                        controller_image])).
  { vm_compute. reflexivity. }
  pose proof (cert_manager_rule_truthy_or_fatal
                helm_show helm_show_subchart PathResolver.parse_value
                PathResolver.add_branch_to_dict "/project" args0 cat_plain _ _ _
                Hwalk Hmap) as [Hrule _].
  vm_compute in Hrule. destruct (Hrule eq_refl) as [Hmain _]. exact Hmain.
Defined.

(** C7 as the specification has it fails: a binding under the role
    ["digest"] does not stop the run. *)
Lemma unknown_role_not_fatal :
  run args0 cat_digest
    = Written (manifest [cert_manager_out []] []) [prefixed controller_image] /\
  ~ (forall args cat w spec specs image_name image_data k v,
       In (w, spec) (workloads_data cat) -> images spec = Some specs ->
       In (image_name, image_data) specs -> In (k, v) image_data ->
       known_role k = false ->
       exists e logged, run args cat = Aborted e logged).
Proof.
  split; [run |]. intros H.
  destruct (H args0 cat_digest "cert_manager"
              (cert_manager [("controller", snd controller ++ [("digest", ref "image.digest")])])
              [("controller", snd controller ++ [("digest", ref "image.digest")])]
              "controller" (snd controller ++ [("digest", ref "image.digest")])
              "digest" (ref "image.digest"))
    as (e & logged & Hrun).
  - by left.
  - reflexivity.
  - by left.
  - cbn. auto.
  - reflexivity.
  - vm_compute in Hrun. discriminate Hrun.
Qed.

Lemma every_workload_in_charts_witness :
  exists entry,
    dict_get [cert_manager_out []; ("metrics_server",
                {| helm := helm_block args0 metrics_server; values := NMap [] |})]
      "metrics_server" = Some entry /\
    helm entry = helm_block args0 metrics_server /\
    dict_get (helm entry) "name" = Some "metrics-server" /\
    dict_get (helm entry) "version" = Some "3.8.2" /\
    is_Some (dict_get (helm entry) "repository") /\
    (images metrics_server = None -> values entry = NMap []).
Proof.
  refine (proj1 (every_workload_in_charts
            helm_show helm_show_subchart PathResolver.parse_value
            PathResolver.add_branch_to_dict "/project" args0 cat_noimages
            (manifest [cert_manager_out []; ("metrics_server",
                {| helm := helm_block args0 metrics_server; values := NMap [] |})] [])
            [prefixed controller_image] "metrics_server" metrics_server _ _ _)).
  - apply (bool_decide_unpack _). vm_compute. exact I.
  - vm_compute. reflexivity.
  - right. left. reflexivity.
Defined.

Lemma falsy_appVersion_retained_witness :
  cert_manager_rule [cert_manager_out [("appVersion", NStr EmptyString)]]
    = Ok [cert_manager_out [("appVersion", NStr EmptyString)]] /\
  run args0 cat_blank
    = Written (manifest [cert_manager_out [("appVersion", NStr EmptyString)]] [])
        [prefixed controller_image].
Proof.
  assert (Hwalk :
    walk_ args0 (get_parsed_charts helm_show helm_show_subchart "/project"
                   (workloads_data cat_blank))
      (workloads_data cat_blank) ([], Some <$> dict_values (additional_images cat_blank))
    = Ok ([cert_manager_out [("appVersion", NStr EmptyString)]], [Some controller_image])).
  { vm_compute. reflexivity. }
  assert (Hmap :
    image_mapping_list args0 cat_blank [Some controller_image]
    = Ok [prefixed controller_image]).
  { vm_compute. reflexivity. }
  exact (falsy_appVersion_retained
           helm_show helm_show_subchart PathResolver.parse_value
           PathResolver.add_branch_to_dict "/project" args0 cat_blank _ _ _
           (snd (cert_manager_out [("appVersion", NStr EmptyString)]))
           [("appVersion", NStr EmptyString)] (NStr EmptyString)
           Hwalk Hmap eq_refl eq_refl eq_refl).
Defined.

End Runs.

(** ** More on the rewriter *)

Section RewriterEdges.

(** X1: [process_image] raises exactly when it is handed [None] together with a
    non-empty mirror table ([None.split] is an [AttributeError]); a string
    always comes back as a string, and [None] comes back as [None] from an
    empty table. *)
Theorem process_image_raises_only_on_None (v : pyval) (m : gmap string string) :
  match process_image v m with
  | Ok out =>
      match v with
      | Some _ => exists o, out = Some o
      | None => out = None /\ m = ∅
      end
  | Raise e => e = AttributeError /\ v = None /\ m <> ∅
  end.
Proof.
  destruct v as [full|].
  - destruct (process_image_str full m) as [out ->]. by exists out.
  - unfold process_image. case_bool_decide; auto.
Qed.

(** X2: The rewriter never sends an image to a registry that is not a value of
    the mirror table: what it returns is the reference it was given, or a
    mirror of the table followed by a slash. *)
Theorem process_image_only_mirrors (full out : string) (m : gmap string string) :
  process_image (Some full) m = Ok (Some out) ->
  out = full \/
  exists key mirror rest, m !! key = Some mirror /\ out = mirror +:+ "/" +:+ rest.
Proof.
  unfold process_image. case_bool_decide; [intros [= <-]; by left |].
  destruct (split_image_tag full) as [image tag].
  destruct (Py.contains "." image).
  - destruct (m !! Py.first _) as [mirror|] eqn:Hhit.
    + intros [= <-]. right. eauto.
    + intros [= <-]. by left.
  - destruct (m !! "default") as [mirror|] eqn:Hdef; cbn [truthy fmt].
    + destruct (negb _); intros [= <-]; [right; eauto | by left].
    + intros [= <-]. by left.
Qed.

Lemma process_image_only_mirrors_witness :
  "mirror.local/foo/bar:v1" = "my.registry.io/foo/bar:v1" \/
  exists key mirror rest,
    ({[ "my.registry.io" := "mirror.local" ]} : gmap string string) !! key = Some mirror /\
    "mirror.local/foo/bar:v1" = mirror +:+ "/" +:+ rest.
Proof.
  apply (process_image_only_mirrors "my.registry.io/foo/bar:v1" "mirror.local/foo/bar:v1"
           {[ "my.registry.io" := "mirror.local" ]}).
  vm_compute. reflexivity.
Defined.

End RewriterEdges.

(** ** More on dicts *)

Section DictMore.
Context {V : Type}.
Implicit Types (d : list (string * V)) (k : string) (v : V).

Lemma dict_keys_set_new d k v :
  ~ In k (dict_keys d) -> dict_keys (dict_set d k v) = dict_keys d ++ [k].
Proof.
  induction d as [|[k' v'] d IH]; cbn; [reflexivity |].
  intros Hk. destruct (String.eqb_spec k' k) as [->|Hne]; [tauto |].
  cbn. f_equal. apply IH. tauto.
Qed.

Lemma dict_keys_set_old d k v :
  In k (dict_keys d) -> dict_keys (dict_set d k v) = dict_keys d.
Proof.
  induction d as [|[k' v'] d IH]; cbn; [tauto |].
  intros Hk. destruct (String.eqb_spec k' k) as [->|Hne]; [reflexivity |].
  cbn. f_equal. apply IH. destruct Hk; [contradiction | assumption].
Qed.

Lemma dict_get_del_ne d k k' : k <> k' -> dict_get (dict_del d k) k' = dict_get d k'.
Proof.
  intros Hne. induction d as [|[k0 v0] d IH]; cbn; [reflexivity |].
  destruct (String.eqb_spec k0 k) as [->|Hk0].
  - apply String.eqb_neq in Hne. by rewrite Hne.
  - cbn. by rewrite IH.
Qed.

Lemma dict_get_Some_In d k v : dict_get d k = Some v -> In k (dict_keys d).
Proof.
  intros Hget. destruct (in_dec String.string_dec k (dict_keys d)) as [Hin|Hout];
    [exact Hin |].
  apply dict_get_None in Hout. congruence.
Qed.
End DictMore.

Lemma dict_set_new {V : Type} (d : list (string * V)) (k : string) (v : V) :
  ~ In k (dict_keys d) -> dict_set d k v = d ++ [(k, v)].
Proof.
  induction d as [|[k' v'] d IH]; cbn; [reflexivity |].
  intros Hk. destruct (String.eqb_spec k' k) as [->|Hne]; [tauto |].
  f_equal. apply IH. tauto.
Qed.

Lemma dict_get_In_fmap {V W : Type} (f : string -> V -> W) (d : list (string * V))
    (k : string) (v : V) :
  NoDup (dict_keys d) -> In (k, v) d ->
  dict_get ((fun kv => (fst kv, f (fst kv) (snd kv))) <$> d) k = Some (f k v).
Proof.
  induction d as [|[k' v'] d IH]; cbn; [tauto |].
  intros Hnd [Heq|Hin].
  - injection Heq as -> ->. by rewrite String.eqb_refl.
  - apply NoDup_cons in Hnd as [Hk' Hnd].
    destruct (String.eqb_spec k' k) as [->|_]; [| by apply IH].
    exfalso. apply Hk'. apply list_elem_of_In, in_map_iff. by exists (k, v).
Qed.

(** ** More on the mapping list *)

Section MappingMore.

(** What one pass of lines 189-194 appends, entry by entry. *)
Lemma append_mappings_shape prefix m (imgs : list pyval) (acc l : list Mapping) :
  append_mappings prefix m imgs acc = Ok l ->
  exists new, l = acc ++ new /\
    Forall2 (fun image e => process_image image m = Ok (src e) /\
                            target e = prefix +:+ fmt image) imgs new.
Proof.
  revert acc. induction imgs as [|image imgs IH]; intros acc Happ.
  - injection Happ as <-. exists []. by rewrite app_nil_r.
  - rewrite append_mappings_cons in Happ.
    destruct (process_image image m) as [working_image|e] eqn:Hp; [| discriminate].
    cbn [mbind result_bind rbind] in Happ.
    destruct (IH _ Happ) as (new & -> & Hnew).
    exists ({| src := working_image; target := prefix +:+ fmt image |} :: new).
    split; [by rewrite <- app_assoc |]. by constructor.
Qed.

(** [sorted] meets [None < str] as soon as the list holds [None] and a
    string. *)
Lemma py_sorted_set_mixed (l : list pyval) (s : string) :
  In None l -> In (Some s) l -> py_sorted_set l = Raise TypeError.
Proof.
  intros HNone HSome. unfold py_sorted_set.
  apply list_elem_of_In, (elem_of_remove_dups l) in HNone, HSome.
  pose proof (NoDup_remove_dups l) as Hnd.
  destruct (mapM id (remove_dups l)) as [strs|] eqn:HmapM.
  - exfalso. apply mapM_Some_1 in HmapM.
    apply list_elem_of_lookup in HNone as [i Hi].
    destruct (Forall2_lookup_l _ _ _ _ _ HmapM Hi) as (y & _ & Hy). discriminate Hy.
  - destruct (remove_dups l) as [|x [|y rest]] eqn:Hrd;
      [by apply elem_of_nil in HNone | | reflexivity].
    apply list_elem_of_singleton in HNone, HSome. congruence.
Qed.

(** X8: With the additional images a dict, lines 40-42 keep their names and
    their order and put the destination prefix before every image. *)
Theorem additional_images_prefixed args cat :
  NoDup (dict_keys (additional_images cat)) ->
  updated_additional_images args cat
  = (fun ni => (fst ni, registry_prefix args +:+ snd ni)) <$> additional_images cat.
Proof.
  unfold updated_additional_images.
  assert (Hgen : forall l acc,
            NoDup (dict_keys l) ->
            (forall k, In k (dict_keys l) -> ~ In k (dict_keys acc)) ->
            fold_left (fun d '(name, image) => dict_set d name (registry_prefix args +:+ image))
              l acc
            = acc ++ ((fun ni => (fst ni, registry_prefix args +:+ snd ni)) <$> l)).
  { induction l as [|[name image] l IH]; intros acc Hnd Hfresh; cbn [fold_left].
    - by rewrite app_nil_r.
    - cbn in Hnd. apply NoDup_cons in Hnd as [Hname Hnd].
      rewrite dict_set_new by (apply Hfresh; by left).
      rewrite IH; [by rewrite <- app_assoc | exact Hnd |].
      intros k Hk. unfold dict_keys. rewrite map_app, in_app_iff. cbn.
      intros [Hacc|[<-|[]]].
      + apply (Hfresh k); [by right | exact Hacc].
      + apply Hname. by apply list_elem_of_In. }
  intros Hnd. rewrite (Hgen _ [] Hnd); [reflexivity |]. intros k _ [].
Qed.

End MappingMore.

(** ** More on the run *)

Section RunFacts.
Variable helm_show : string -> string -> string -> Node.
Variable helm_show_subchart : string -> string -> string -> string -> string -> Node.
Variable parse_value : Node -> ChartSpec -> string -> Binding -> string -> pyval.
Variable add_branch_to_dict : Node -> Binding -> pyval -> Node.
Variable project_path : string.

Local Abbreviation walk_images_ := (walk_images parse_value add_branch_to_dict).
Local Abbreviation walk_workload_ := (walk_workload parse_value add_branch_to_dict).
Local Abbreviation walk_ := (walk parse_value add_branch_to_dict).
Local Abbreviation main_ :=
  (main helm_show helm_show_subchart parse_value add_branch_to_dict project_path).
Local Abbreviation parsed_charts_ :=
  (get_parsed_charts helm_show helm_show_subchart project_path).
Local Abbreviation show_workload_ :=
  (show_workload helm_show helm_show_subchart project_path).

(** The walk appends one image per image spec. *)
Lemma walk_count args pc wl ccv imgs ccv' imgs' :
  walk_ args pc wl (ccv, imgs) = Ok (ccv', imgs') ->
  exists new, imgs' = imgs ++ new /\ length new = image_count wl.
Proof.
  revert ccv imgs. induction wl as [|[w spec] wl IH]; intros ccv imgs Hwalk.
  - injection Hwalk as <- <-. exists []. by rewrite app_nil_r.
  - cbn [walk] in Hwalk.
    destruct (walk_workload_ args pc (ccv, imgs) (w, spec)) as [[ccv1 imgs1]|e] eqn:Hstep;
      [| discriminate].
    cbn in Hwalk. destruct (IH _ _ Hwalk) as (new & -> & Hnew).
    unfold walk_workload in Hstep. unfold image_count. cbn [fmap list_fmap list_sum snd].
    destruct (images spec) as [specs|].
    + destruct (dict_get pc w) as [parsed|]; [| discriminate].
      destruct (walk_images_ args parsed spec specs (NMap []) imgs) as [[vals1 imgs2]|e] eqn:Himgs;
        [| discriminate].
      injection Hstep as <- <-.
      destruct (walk_images_extends _ _ _ _ _ _ _ _ _ _ Himgs) as (new1 & -> & Hnew1).
      exists (new1 ++ new). rewrite app_assoc. split; [reflexivity |].
      rewrite length_app, Hnew1, Hnew. reflexivity.
    + injection Hstep as <- <-. exists new. split; [reflexivity |]. rewrite Hnew. reflexivity.
Qed.

(** X7: An image whose coordinate came out as [None] stops the run at line 169
    as soon as [images_wip] holds any string beside it: nothing is written
    and nothing is logged. *)
Theorem unresolved_coordinate_aborts args cat ccv imgs s :
  walk_ args (parsed_charts_ (workloads_data cat)) (workloads_data cat)
    ([], Some <$> dict_values (additional_images cat)) = Ok (ccv, imgs) ->
  In None imgs -> In (Some s) imgs ->
  main_ args cat = Aborted TypeError false.
Proof.
  intros Hwalk HNone HSome. unfold main. rewrite Hwalk. cbn.
  unfold image_mapping_list. by rewrite (py_sorted_set_mixed imgs s HNone HSome).
Qed.

Lemma walk_keys args pc wl ccv imgs ccv' imgs' :
  NoDup (dict_keys ccv ++ dict_keys wl) ->
  walk_ args pc wl (ccv, imgs) = Ok (ccv', imgs') ->
  dict_keys ccv' = dict_keys ccv ++ dict_keys wl.
Proof.
  revert ccv imgs. induction wl as [|[w spec] wl IH]; intros ccv imgs Hnd Hwalk.
  - injection Hwalk as <- <-. by rewrite app_nil_r.
  - cbn [walk] in Hwalk.
    destruct (walk_workload_ args pc (ccv, imgs) (w, spec)) as [[ccv1 imgs1]|e] eqn:Hstep;
      [| discriminate].
    cbn in Hwalk.
    assert (Hfresh : ~ In w (dict_keys ccv)).
    { apply NoDup_app in Hnd as (_ & Hdisj & _). intros Hin.
      apply (Hdisj w); [by apply list_elem_of_In | by left]. }
    assert (Hkeys1 : dict_keys ccv1 = dict_keys ccv ++ [w]).
    { unfold walk_workload in Hstep. destruct (images spec) as [specs|].
      - destruct (dict_get pc w) as [parsed|]; [| discriminate].
        destruct (walk_images_ _ _ _ _ _ _) as [[vals imgs2]|e]; [| discriminate].
        injection Hstep as <- <-. by apply dict_keys_set_new.
      - injection Hstep as <- <-. by apply dict_keys_set_new. }
    rewrite (IH ccv1 imgs1); [| | exact Hwalk]; rewrite Hkeys1, <- app_assoc; [reflexivity |].
    exact Hnd.
Qed.

Lemma cert_manager_rule_keys ccv ccv' :
  cert_manager_rule ccv = Ok ccv' -> dict_keys ccv' = dict_keys ccv.
Proof.
  unfold cert_manager_rule. destruct (dict_get ccv "cert_manager") as [entry|] eqn:Hget;
    [| discriminate].
  destruct (subscript (values entry) "appVersion") as [v|e]; [| discriminate]. cbn.
  destruct (node_truthy v); [| by intros [= <-]].
  destruct (values entry); try discriminate. intros [= <-].
  apply dict_keys_set_old. by apply dict_get_Some_In in Hget.
Qed.

(** X9: The charts document that is written lists the workloads of the catalog
    and nothing else, in the catalog's order. *)
Theorem charts_follow_catalog args cat m l :
  NoDup (dict_keys (workloads_data cat)) ->
  main_ args cat = Written m l ->
  dict_keys (charts m) = dict_keys (workloads_data cat).
Proof.
  intros Hnd Hmain.
  destruct (main_written _ _ _ _ _ _ _ _ _ Hmain) as (ccv & imgs & Hwalk & _ & Hrule).
  rewrite (cert_manager_rule_keys _ _ Hrule).
  by rewrite (walk_keys _ _ _ [] _ _ _ Hnd Hwalk).
Qed.

(** X10: The rule touches nothing but the ["appVersion"] key of cert_manager's
    overrides: the other workloads keep their entries, cert_manager keeps
    its helm block, and every other key of its overrides reads as before. *)
Theorem cert_manager_rule_frame ccv ccv' :
  cert_manager_rule ccv = Ok ccv' ->
  (forall w, w <> "cert_manager" -> dict_get ccv' w = dict_get ccv w) /\
  (exists entry entry',
     dict_get ccv "cert_manager" = Some entry /\
     dict_get ccv' "cert_manager" = Some entry' /\
     helm entry' = helm entry /\
     forall k, k <> "appVersion" ->
       subscript (values entry') k = subscript (values entry) k).
Proof.
  unfold cert_manager_rule.
  destruct (dict_get ccv "cert_manager") as [entry|] eqn:Hget; [| discriminate].
  destruct (subscript (values entry) "appVersion") as [v|e]; [| discriminate]. cbn.
  destruct (node_truthy v).
  - destruct (values entry) as [|s|items|kvs] eqn:Hvals; try discriminate.
    intros [= <-]. split.
    + intros w Hw. by apply dict_get_set_ne.
    + exists entry. eexists. split; [reflexivity |]. rewrite dict_get_set_eq.
      split; [reflexivity |]. cbn. split; [reflexivity |].
      intros k Hk. rewrite Hvals. cbn. by rewrite dict_get_del_ne.
  - intros [= <-]. split; [reflexivity |]. by exists entry, entry.
Qed.

(** X11: A catalog without a ["cert_manager"] workload never gets its documents
    written: if the run reaches the rule, the rule raises. *)
Theorem run_needs_cert_manager args cat :
  ~ In "cert_manager" (dict_keys (workloads_data cat)) ->
  main_ args cat = Aborted (KeyError "cert_manager") true \/
  exists e, main_ args cat = Aborted e false.
Proof.
  intros Hnone. unfold main.
  destruct (walk_ _ _ _ _) as [[ccv imgs]|e] eqn:Hwalk; cbn; [| right; by exists e].
  destruct (image_mapping_list args cat imgs) as [l|e]; cbn; [| right; by exists e].
  left. unfold cert_manager_rule.
  pose proof (walk_other_keys helm_show helm_show_subchart _ _ project_path
                _ _ _ _ _ _ Hwalk Hnone) as Hget.
  cbn in Hget. by rewrite Hget.
Qed.

(** X12: A catalog whose ["cert_manager"] workload declares no images never
    gets its documents written either: the override tree of the workload
    stays empty and the rule misses ["appVersion"]. *)
Theorem cert_manager_needs_images args cat spec :
  NoDup (dict_keys (workloads_data cat)) ->
  In ("cert_manager", spec) (workloads_data cat) ->
  images spec = None ->
  main_ args cat = Aborted (KeyError "appVersion") true \/
  exists e, main_ args cat = Aborted e false.
Proof.
  intros Hnd Hin Himages. unfold main.
  destruct (walk_ _ _ _ _) as [[ccv imgs]|e] eqn:Hwalk; cbn; [| right; by exists e].
  destruct (image_mapping_list args cat imgs) as [l|e]; cbn; [| right; by exists e].
  left. unfold cert_manager_rule.
  destruct (walk_entries helm_show helm_show_subchart _ _ project_path
              _ _ _ _ _ Hnd Hwalk _ _ Hin) as (entry & Hget & _ & Hvals).
  cbn in Hget. rewrite Hget, (Hvals Himages). reflexivity.
Qed.

Lemma get_parsed_charts_fmap wl :
  NoDup (dict_keys wl) ->
  parsed_charts_ wl = (fun wv => (fst wv, show_workload_ (fst wv) (snd wv))) <$> wl.
Proof.
  unfold get_parsed_charts.
  assert (Hgen : forall l acc,
            NoDup (dict_keys l) ->
            (forall k, In k (dict_keys l) -> ~ In k (dict_keys acc)) ->
            fold_left (fun pc '(workload, values) =>
                         dict_set pc workload (show_workload_ workload values)) l acc
            = acc ++ ((fun wv => (fst wv, show_workload_ (fst wv) (snd wv))) <$> l)).
  { induction l as [|[w spec] l IH]; intros acc Hnd Hfresh; cbn [fold_left].
    - by rewrite app_nil_r.
    - cbn in Hnd. apply NoDup_cons in Hnd as [Hw Hnd].
      rewrite dict_set_new by (apply Hfresh; by left).
      rewrite IH; [by rewrite <- app_assoc | exact Hnd |].
      intros k Hk. unfold dict_keys. rewrite map_app, in_app_iff. cbn.
      intros [Hacc|[<-|[]]].
      + apply (Hfresh k); [by right | exact Hacc].
      + apply Hw. by apply list_elem_of_In. }
  intros Hnd. rewrite (Hgen _ [] Hnd); [reflexivity |]. intros k _ [].
Qed.

(** X13: [parsed_charts] as the first loop leaves it: one entry per workload, in
    the catalog's order, and under each workload what was fetched for that
    workload. *)
Theorem parsed_charts_entries wl w spec :
  NoDup (dict_keys wl) -> In (w, spec) wl ->
  dict_keys (parsed_charts_ wl) = dict_keys wl /\
  dict_get (parsed_charts_ wl) w = Some (show_workload_ w spec).
Proof.
  intros Hnd Hin. rewrite (get_parsed_charts_fmap wl Hnd). split.
  - unfold dict_keys. rewrite <- list_fmap_compose. reflexivity.
  - apply dict_get_In_fmap; assumption.
Qed.

(** X14: Under ["subcharts"] every declared subchart holds what
    [helm.show_subchart] returned for it, and a workload without images is
    not fetched at all. *)
Theorem subcharts_fetched workload spec :
  match images spec with
  | None => show_workload_ workload spec = NMap []
  | Some _ =>
      subscript (show_workload_ workload spec) "chart"
        = Ok (helm_show "chart" (workload +:+ "/" +:+ chart_name spec) (chart_version spec)) /\
      subscript (show_workload_ workload spec) "values"
        = Ok (helm_show "values" (workload +:+ "/" +:+ chart_name spec) (chart_version spec)) /\
      match subcharts spec with
      | None => subscript (show_workload_ workload spec) "subcharts" = Raise (KeyError "subcharts")
      | Some subs =>
          forall subchart, In subchart subs ->
            (shown ← subscript (show_workload_ workload spec) "subcharts";
             subscript shown subchart)
            = Ok (helm_show_subchart project_path workload (chart_name spec) subchart
                    (chart_version spec))
      end
  end.
Proof.
  unfold show_workload. destruct (images spec) as [specs|]; [| reflexivity].
  destruct (subcharts spec) as [subs|]; cbn; [| auto].
  split; [reflexivity |]. split; [reflexivity |].
  intros subchart Hin.
  set (fetch := fun sub => helm_show_subchart project_path workload (chart_name spec) sub
                             (chart_version spec)).
  assert (Hgen : forall l acc,
            (In subchart l \/ dict_get acc subchart = Some (fetch subchart)) ->
            dict_get (fold_left (fun d sub => dict_set d sub (fetch sub)) l acc) subchart
            = Some (fetch subchart)).
  { induction l as [|sub l IH]; intros acc Hsome; cbn [fold_left].
    - destruct Hsome as [[]|Hacc]. exact Hacc.
    - apply IH. destruct (String.eqb_spec sub subchart) as [->|Hne].
      + right. apply dict_get_set_eq.
      + destruct Hsome as [[Heq|Hl]|Hacc]; [contradiction | by left |].
        right. by rewrite dict_get_set_ne. }
  pose proof (Hgen subs [] (or_introl Hin)) as Hget. unfold fetch in Hget.
  by rewrite Hget.
Qed.

(** The images already gathered do not matter to the extractor. *)
Lemma walk_images_frame args parsed spec specs vals imgs :
  walk_images_ args parsed spec specs vals imgs
  = match walk_images_ args parsed spec specs vals [] with
    | Ok (vals', new) => Ok (vals', imgs ++ new)
    | Raise e => Raise e
    end.
Proof.
  revert vals imgs. induction specs as [|[image_name image_data] specs IH]; intros vals imgs.
  - cbn. by rewrite app_nil_r.
  - cbn [walk_images].
    destruct (extract_image _ _ _ _ _ _ _ _) as [[vals1 image]|e]; [| reflexivity].
    cbn. rewrite (IH vals1 (imgs ++ [image])), (IH vals1 [image]).
    destruct (walk_images_ args parsed spec specs vals1 []) as [[vals2 new]|e]; [| reflexivity].
    by rewrite <- app_assoc.
Qed.

Lemma walk_workload_values args pc ccv imgs w spec specs st' :
  walk_workload_ args pc (ccv, imgs) (w, spec) = Ok st' ->
  images spec = Some specs ->
  exists parsed entry new,
    dict_get pc w = Some parsed /\ dict_get (fst st') w = Some entry /\
    walk_images_ args parsed spec specs (NMap []) [] = Ok (values entry, new).
Proof.
  unfold walk_workload. intros Hstep Himages. rewrite Himages in Hstep.
  destruct (dict_get pc w) as [parsed|]; [| discriminate].
  rewrite walk_images_frame in Hstep.
  destruct (walk_images_ args parsed spec specs (NMap []) []) as [[vals new]|e] eqn:Himgs;
    [| discriminate].
  cbn in Hstep. injection Hstep as <-.
  exists parsed, {| helm := helm_block args spec; values := vals |}, new.
  split; [reflexivity |]. cbn. rewrite dict_get_set_eq. split; [reflexivity | exact Himgs].
Qed.

Lemma walk_values args pc wl st st' w spec specs :
  NoDup (dict_keys wl) -> walk_ args pc wl st = Ok st' ->
  In (w, spec) wl -> images spec = Some specs ->
  exists parsed entry new,
    dict_get pc w = Some parsed /\ dict_get (fst st') w = Some entry /\
    walk_images_ args parsed spec specs (NMap []) [] = Ok (values entry, new).
Proof.
  revert st. induction wl as [|[w0 spec0] wl IH]; intros [ccv imgs] Hnd Hwalk Hin Himages;
    [destruct Hin |].
  cbn [walk] in Hwalk.
  destruct (walk_workload_ args pc (ccv, imgs) (w0, spec0)) as [st1|e] eqn:Hstep;
    [| discriminate].
  cbn in Hwalk, Hnd. apply NoDup_cons in Hnd as [Hw0 Hnd].
  destruct Hin as [[= -> ->]|Hin].
  - destruct (walk_workload_values _ _ _ _ _ _ _ _ Hstep Himages)
      as (parsed & entry & new & Hpc & Hget & Himgs).
    exists parsed, entry, new. split; [exact Hpc |]. split; [| exact Himgs].
    rewrite <- Hget.
    apply (walk_other_keys helm_show helm_show_subchart _ _ project_path _ _ _ _ _ _ Hwalk).
    by rewrite <- list_elem_of_In.
  - by apply (IH st1 Hnd Hwalk).
Qed.

Lemma cert_manager_rule_others ccv ccv' w :
  cert_manager_rule ccv = Ok ccv' -> w <> "cert_manager" ->
  dict_get ccv' w = dict_get ccv w.
Proof.
  unfold cert_manager_rule. intros Hrule Hw.
  destruct (dict_get ccv "cert_manager") as [entry|]; [| discriminate].
  destruct (subscript (values entry) "appVersion") as [v|e]; [| discriminate].
  cbn in Hrule. destruct (node_truthy v); [| by injection Hrule as <-].
  destruct (values entry); try discriminate. injection Hrule as <-.
  by apply dict_get_set_ne.
Qed.

(** X15: In the charts document the override tree of a workload (other than
    cert_manager, which the rule edits) is what the extractor builds from an
    empty tree out of that workload's own image specs and the chart fetched
    for that workload; no other workload has a hand in it. *)
Theorem workload_overrides_isolated args cat m l w spec specs :
  NoDup (dict_keys (workloads_data cat)) ->
  main_ args cat = Written m l ->
  In (w, spec) (workloads_data cat) ->
  images spec = Some specs ->
  w <> "cert_manager" ->
  exists entry new,
    dict_get (charts m) w = Some entry /\
    walk_images_ args (show_workload_ w spec) spec specs (NMap []) []
    = Ok (values entry, new).
Proof.
  intros Hnd Hmain Hin Himages Hw.
  destruct (main_written _ _ _ _ _ _ _ _ _ Hmain) as (ccv & imgs & Hwalk & _ & Hrule).
  destruct (walk_values _ _ _ _ _ _ _ _ Hnd Hwalk Hin Himages)
    as (parsed & entry & new & Hpc & Hget & Himgs).
  exists entry, new. split.
  - rewrite (cert_manager_rule_others _ _ _ Hrule Hw). exact Hget.
  - rewrite (get_parsed_charts_fmap _ Hnd) in Hpc.
    rewrite (dict_get_In_fmap (fun w spec => show_workload_ w spec) _ _ _ Hnd Hin) in Hpc.
    by injection Hpc as <-.
Qed.

(** The walk appends, workload by workload, what the extractor gathers
    from that workload's image specs. *)
Lemma walk_per_workload args pc wl ccv imgs ccv' imgs' :
  (forall w spec, In (w, spec) wl -> dict_get pc w = Some (show_workload_ w spec)) ->
  walk_ args pc wl (ccv, imgs) = Ok (ccv', imgs') ->
  exists per_workload,
    Forall2 (fun wv new =>
               match images (snd wv) with
               | None => new = []
               | Some specs =>
                   exists vals,
                     walk_images_ args (show_workload_ (fst wv) (snd wv)) (snd wv) specs
                       (NMap []) [] = Ok (vals, new)
               end) wl per_workload /\
    imgs' = imgs ++ concat per_workload.
Proof.
  revert ccv imgs. induction wl as [|[w spec] wl IH]; intros ccv imgs Hpc Hwalk.
  - injection Hwalk as <- <-. exists []. split; [constructor | by rewrite app_nil_r].
  - cbn [walk] in Hwalk.
    destruct (walk_workload_ args pc (ccv, imgs) (w, spec)) as [[ccv1 imgs1]|e] eqn:Hstep;
      [| discriminate].
    cbn in Hwalk.
    destruct (IH ccv1 imgs1) as (per & Hper & ->); [| exact Hwalk |].
    { intros w' spec' Hin. apply Hpc. by right. }
    unfold walk_workload in Hstep.
    destruct (images spec) as [specs|] eqn:Himages.
    + rewrite (Hpc w spec (or_introl eq_refl)) in Hstep.
      rewrite walk_images_frame in Hstep.
      destruct (walk_images_ args (show_workload_ w spec) spec specs (NMap []) [])
        as [[vals new]|e] eqn:Himgs; [| discriminate].
      cbn in Hstep. injection Hstep as <- <-.
      exists (new :: per). split.
      * constructor; [| exact Hper]. cbn. rewrite Himages. by exists vals.
      * cbn. by rewrite app_assoc.
    + injection Hstep as <- <-. exists ([] :: per). split; [| reflexivity].
      constructor; [| exact Hper]. cbn. by rewrite Himages.
Qed.

(** X5: Whenever the mapping list is written it holds the additional images
    twice (lines 189-191 list them, and [images_wip] starts with them), then,
    workload by workload in the catalog's order, the images the extractor
    gathers from that workload's image specs and the chart fetched for it
    (none for a workload without images), one per image spec; every entry
    pairs what [process_image] returns with the destination prefix put
    before the image. *)
Theorem written_mapping_list_shape args cat m l :
  NoDup (dict_keys (workloads_data cat)) ->
  main_ args cat = Written m l ->
  exists per_workload,
    Forall2 (fun wv new =>
               match images (snd wv) with
               | None => new = []
               | Some specs =>
                   exists vals,
                     walk_images_ args (show_workload_ (fst wv) (snd wv)) (snd wv) specs
                       (NMap []) [] = Ok (vals, new)
               end) (workloads_data cat) per_workload /\
    length (concat per_workload) = image_count (workloads_data cat) /\
    Forall2 (fun image e => process_image image (docker_mappings cat) = Ok (src e) /\
                            target e = registry_prefix args +:+ fmt image)
      ((Some <$> dict_values (additional_images cat)) ++
       (Some <$> dict_values (additional_images cat)) ++ concat per_workload) l.
Proof.
  intros Hnd Hmain.
  destruct (main_written _ _ _ _ _ _ _ _ _ Hmain) as (ccv & imgs & Hwalk & Hmap & _).
  destruct (walk_per_workload _ _ _ _ _ _ _
              (fun w spec Hin =>
                 eq_trans (f_equal (fun pc => dict_get pc w) (get_parsed_charts_fmap _ Hnd))
                   (dict_get_In_fmap (fun w spec => show_workload_ w spec) _ _ _ Hnd Hin))
              Hwalk) as (per & Hper & Himgs).
  destruct (walk_count _ _ _ _ _ _ _ Hwalk) as (chart_images & Himgs' & Hlen).
  rewrite Himgs in Himgs'. apply app_inv_head in Himgs' as <-. subst imgs.
  exists per. split; [exact Hper |]. split; [exact Hlen |].
  unfold image_mapping_list in Hmap.
  destruct (py_sorted_set _) as [sorted_images|e]; [| discriminate]. cbn in Hmap.
  destruct (append_mappings _ _ (Some <$> dict_values (additional_images cat)) [])
    as [updated_images|e] eqn:Hfirst; [| discriminate].
  cbn in Hmap.
  apply append_mappings_shape in Hfirst as (new1 & -> & Hnew1).
  apply append_mappings_shape in Hmap as (new2 & -> & Hnew2).
  cbn [app]. by apply Forall2_app.
Qed.

End RunFacts.

(** ** More on the extractor *)

Section ExtractorMore.
Variable parse_value : Node -> ChartSpec -> string -> Binding -> string -> pyval.
Variable add_branch_to_dict : Node -> Binding -> pyval -> Node.
Variable args : Args.
Variable parsed : Node.
Variable values : ChartSpec.
Variable image_name : string.

Local Abbreviation on_registry :=
  (registry_step parse_value add_branch_to_dict args parsed values image_name).
Local Abbreviation on_repository_tag :=
  (repository_tag_step parse_value add_branch_to_dict args parsed values image_name).
Local Abbreviation on_remove := (remove_step add_branch_to_dict).
Local Abbreviation passes :=
  (run_passes parse_value add_branch_to_dict args parsed values image_name).
Local Abbreviation extract :=
  (extract_image parse_value add_branch_to_dict args parsed values image_name).




End ExtractorMore.

(** ** More on the helm block *)

Section HelmBlock.

Lemma rstrip_snoc (c : ascii) (s : string) :
  Py.rstrip c (s +:+ String c EmptyString) = Py.rstrip c s.
Proof.
  induction s as [|a s IH].
  - rewrite append_empty_l. cbn. by rewrite Ascii.eqb_refl.
  - rewrite append_cons. cbn. by rewrite IH.
Qed.

Lemma split_last_no_sep (sep : ascii) (s : string) :
  Py.contains sep (Py.last (Py.split sep s)) = false.
Proof.
  unfold Py.last. induction s as [|a s IH]; cbn [Py.split]; [reflexivity |].
  pose proof (split_not_nil sep s) as Hnil.
  destruct (Ascii.eqb a sep) eqn:Ha.
  - destruct (Py.split sep s) as [|h t]; [congruence | exact IH].
  - destruct (Py.split sep s) as [|h [|x t]]; [congruence | |].
    + cbn in *. by rewrite Ha, IH.
    + exact IH.
Qed.

(** X17: With the flag, the chart's place under the destination registry is
    named after the last path segment of the source repository: a segment
    without a slash, the same whether or not the URL ends in a slash. *)
Theorem oci_repository_segment (args : Args) (name repo version : string)
    (subs : option (list string)) (specs : option (list (string * ImageFieldSpec))) :
  let spec r :=
    {| chart_name := name; chart_repository := r; chart_version := version;
       subcharts := subs; images := specs |} in
  dict_get (helm_block (with_flag true args) (spec (repo +:+ "/"))) "repository"
  = dict_get (helm_block (with_flag true args) (spec repo)) "repository" /\
  exists segment,
    Py.contains "/" segment = false /\
    dict_get (helm_block (with_flag true args) (spec repo)) "repository"
    = Some ("oci://" +:+ registry_prefix args +:+ segment +:+ "/" +:+ name).
Proof.
  intros spec. unfold helm_block. cbn. split.
  - change (repo +:+ "/") with (repo +:+ String "/" EmptyString). by rewrite rstrip_snoc.
  - eexists. split; [apply (split_last_no_sep "/") | reflexivity].
Qed.

End HelmBlock.

(** ** The dependencies of the FSx integration test *)

Section DependencyFacts.
Variable exn : Type.
Variable get_parameter : string -> exn + Node.

Local Abbreviation value_of := (Integ.parameter_value exn get_parameter).
Local Abbreviation collect_ := (Integ.collect exn get_parameter).
Local Abbreviation get_module_dependencies_ :=
  (Integ.get_module_dependencies exn get_parameter).

Lemma collect_found (val : string -> Node) (ks : list string) (acc : list (string * Node)) :
  (forall key, In key ks -> value_of key = inr (val key)) ->
  snd (collect_ ks acc) = None /\
  forall key, dict_get (fst (collect_ ks acc)) key
              = if in_dec String.string_dec key ks then Some (val key) else dict_get acc key.
Proof.
  revert acc. induction ks as [|k ks IH]; intros acc Hval; [by split |].
  cbn [Integ.collect]. rewrite (Hval k) by (by left).
  destruct (IH (dict_set acc k (val k))) as [Hnone Hget].
  { intros key Hin. apply Hval. by right. }
  split; [exact Hnone |]. intros key. rewrite Hget.
  destruct (in_dec String.string_dec key ks) as [Hin|Hout].
  - destruct (in_dec String.string_dec key (k :: ks)) as [_|Hout]; [reflexivity |].
    exfalso. apply Hout. by right.
  - destruct (String.string_dec k key) as [->|Hne].
    + rewrite dict_get_set_eq.
      destruct (in_dec String.string_dec key (key :: ks)) as [_|Hout']; [reflexivity |].
      exfalso. apply Hout'. by left.
    + rewrite dict_get_set_ne by exact Hne.
      destruct (in_dec String.string_dec key (k :: ks)) as [[Heq|Hin]|_];
        [contradiction | contradiction | reflexivity].
Qed.

(** X18: When every parameter is there, nothing is printed and the dict holds
    the value of each key asked for, and no other key. *)
Theorem dependencies_all_found (val : string -> Node) (resource_keys : list string) :
  (forall key, In key resource_keys -> value_of key = inr (val key)) ->
  snd (get_module_dependencies_ resource_keys) = None /\
  (forall key, In key resource_keys ->
     dict_get (fst (get_module_dependencies_ resource_keys)) key = Some (val key)) /\
  (forall key, ~ In key resource_keys ->
     dict_get (fst (get_module_dependencies_ resource_keys)) key = None).
Proof.
  intros Hval. unfold Integ.get_module_dependencies.
  destruct (collect_found val resource_keys [] Hval) as [Hnone Hget].
  split; [exact Hnone |]. split; intros key Hkey; rewrite Hget;
    destruct (in_dec String.string_dec key resource_keys); done.
Qed.


(** X20: The two lookups of the script: a parameter that could not be read comes
    back later as the [KeyError] of the first key that is missing from the
    dict, since the handler only printed the exception. *)
Theorem swallowed_failure_resurfaces :
  match value_of "vpc-id", value_of "vpc-private-subnets" with
  | inr vpc_id, inr subnets =>
      Integ.dependencies exn get_parameter
        = ([("vpc-id", vpc_id); ("vpc-private-subnets", subnets)], None) /\
      Integ.stack_arguments exn get_parameter = Ok (vpc_id, subnets)
  | inr vpc_id, inl e =>
      Integ.dependencies exn get_parameter = ([("vpc-id", vpc_id)], Some e) /\
      Integ.stack_arguments exn get_parameter = Raise (KeyError "vpc-private-subnets")
  | inl e, _ =>
      Integ.dependencies exn get_parameter = ([], Some e) /\
      Integ.stack_arguments exn get_parameter = Raise (KeyError "vpc-id")
  end.
Proof.
  unfold Integ.stack_arguments, Integ.dependencies, Integ.get_module_dependencies.
  cbn [Integ.collect].
  destruct (value_of "vpc-id") as [e|vpc_id]; [by split |].
  destruct (value_of "vpc-private-subnets") as [e|subnets]; by split.
Qed.

End DependencyFacts.

(** ** The settings of the RDS module *)

Section SettingsFacts.
Import Settings.

Lemma len_append (s t : string) : len (s +:+ t) = len s + len t.
Proof.
  induction s as [|a s IH]; [reflexivity |]. rewrite append_cons. cbn [len].
  rewrite IH. lia.
Qed.

(** X21: The description falls back to the default text exactly when the
    solution id or the solution name is missing or empty; a version alone
    never shows. *)
Theorem description_default_iff (self : ModuleSettings) :
  description self = "My Module Default Description" <->
  truthy (solution_id self) = false \/ truthy (solution_name self) = false.
Proof.
  unfold description.
  destruct (truthy (solution_id self)), (truthy (solution_name self)); cbn [andb].
  - destruct (truthy (solution_version self)).
    + split; [intros H; discriminate H | intros [H|H]; discriminate H].
    + split; [intros H; discriminate H | intros [H|H]; discriminate H].
  - split; auto.
  - split; auto.
  - split; auto.
Qed.

(** X22: The validator lets the settings through exactly when the project and
    the deployment name have at most 34 characters (code points) together:
    the hyphen between them counts towards the 35. *)
Theorem name_length_budget (self : SeedFarmerSettings) :
  check_character_length self = Valid self <->
  len (project_name self) + len (deployment_name self) <= 34.
Proof.
  unfold check_character_length. rewrite !len_append.
  change (len "-") with 1.
  destruct (Nat.ltb_spec 35 (len (project_name self) + (1 + len (deployment_name self))))
    as [Hlt|Hge].
  - split; [discriminate | lia].
  - split; [lia | reflexivity].
Qed.

(** Eighteen accented letters and ["dev"] are 22 characters and pass, though
    they are 40 bytes. *)
Example accented_names_accepted :
  len (project_name MoreSamples.accented_settings) = 18 /\
  String.length (project_name MoreSamples.accented_settings) = 36 /\
  check_character_length MoreSamples.accented_settings
  = Valid MoreSamples.accented_settings.
Proof. split; [reflexivity |]. split; reflexivity. Qed.

(** X23: Settings that passed the validator have an application prefix of the
    three names and two hyphens, hence of at most 36 characters (code
    points) plus the module name. *)
Theorem app_prefix_length (self : SeedFarmerSettings) :
  check_character_length self = Valid self ->
  len (app_prefix self)
    = len (project_name self) + len (deployment_name self) + len (module_name self) + 2 /\
  len (app_prefix self) <= 36 + len (module_name self).
Proof.
  unfold check_character_length, app_prefix. cbn [Py.join].
  rewrite !len_append. change (len "-") with 1.
  destruct (Nat.ltb_spec 35 (len (project_name self) + (1 + len (deployment_name self))))
    as [Hlt|Hge]; [discriminate |].
  intros _. lia.
Qed.

(** X24: When no name holds a hyphen, splitting the application prefix at the
    hyphens gives the three names back. *)
Theorem app_prefix_split (self : SeedFarmerSettings) :
  Py.contains "-" (project_name self) = false ->
  Py.contains "-" (deployment_name self) = false ->
  Py.contains "-" (module_name self) = false ->
  Py.split "-" (app_prefix self)
  = [project_name self; deployment_name self; module_name self].
Proof.
  intros Hp Hd Hm. unfold app_prefix. cbn [Py.join].
  change ("-" +:+ deployment_name self +:+ "-" +:+ module_name self)
    with (String "-" (deployment_name self +:+ String "-" (module_name self))).
  rewrite (split_piece _ _ _ Hp), (split_piece _ _ _ Hd). by rewrite (split_no_sep _ _ Hm).
Qed.

Lemma upper_char_caseless (a b : ascii) :
  is_lower b = true -> (upper_char a = upper_char b <-> a = b \/ a = upper_char b).
Proof.
  unfold is_lower, upper_char. intros Hb. rewrite Hb.
  apply andb_true_iff in Hb as [Hb1 Hb2]. apply Nat.leb_le in Hb1, Hb2.
  assert (Hup : nat_of_ascii (ascii_of_nat (nat_of_ascii b - 32)) = nat_of_ascii b - 32).
  { apply nat_ascii_embedding. lia. }
  destruct (Nat.leb 97 (nat_of_ascii a) && Nat.leb (nat_of_ascii a) 122) eqn:Ha.
  - apply andb_true_iff in Ha as [Ha1 Ha2]. apply Nat.leb_le in Ha1, Ha2. split.
    + intros Heq. left. apply (f_equal nat_of_ascii) in Heq.
      rewrite Hup, nat_ascii_embedding in Heq by lia.
      rewrite <- (ascii_nat_embedding a), <- (ascii_nat_embedding b). f_equal. lia.
    + intros [->|Heq]; [reflexivity |]. exfalso.
      apply (f_equal nat_of_ascii) in Heq. rewrite Hup in Heq. lia.
  - split; [auto |]. intros [->|Heq]; [| exact Heq]. exfalso.
    apply andb_false_iff in Ha as [Ha|Ha]; apply Nat.leb_gt in Ha; lia.
Qed.

Lemma upper_caseless (s lower : string) :
  all_lower lower = true -> (upper s = upper lower <-> caseless s lower).
Proof.
  revert s. induction lower as [|b lower IH]; intros [|a s] Hlower; cbn; try tauto;
    try (split; [discriminate | tauto]).
  cbn in Hlower. apply andb_true_iff in Hlower as [Hb Hlower].
  rewrite <- (IH s Hlower), <- (upper_char_caseless a b Hb). split.
  - intros [= Ha Hs]. by split.
  - intros [-> ->]. reflexivity.
Qed.

(** X25: On ASCII text the validator does not look at the letter case: it
    returns DESTROY for every spelling of destroy, RETAIN for every spelling
    of retain, and raises a [ValueError] that quotes the text in upper case
    for everything else. *)
Theorem removal_policy_caseless (value : string) :
  is_ascii value = true ->
  (transform_removal_policy value = Valid DESTROY <-> caseless value "destroy") /\
  (transform_removal_policy value = Valid RETAIN <-> caseless value "retain") /\
  (~ caseless value "destroy" -> ~ caseless value "retain" ->
   transform_removal_policy value = ValueError ("Invalid removal policy " +:+ upper value)).
Proof.
  intros _. unfold transform_removal_policy.
  rewrite <- (upper_caseless value "destroy" eq_refl),
          <- (upper_caseless value "retain" eq_refl).
  change (upper "destroy") with "DESTROY". change (upper "retain") with "RETAIN".
  destruct (String.eqb_spec (upper value) "DESTROY") as [Hd|Hd].
  - rewrite Hd. split; [by split |]. split; [split; discriminate | done].
  - destruct (String.eqb_spec (upper value) "RETAIN") as [Hr|Hr].
    + split; [split; [discriminate | done] |]. split; [by split | done].
    + split; [split; [discriminate | done] |]. split; [split; [discriminate | done] | done].
Qed.

End SettingsFacts.

(** ** More runs on the sample data *)

Section MoreRuns.
Import Sample MoreSamples.

Local Abbreviation walk_ :=
  (walk PathResolver.parse_value PathResolver.add_branch_to_dict).
Local Abbreviation walk_images_ :=
  (walk_images PathResolver.parse_value PathResolver.add_branch_to_dict).
Local Abbreviation parsed_charts_ :=
  (get_parsed_charts helm_show helm_show_subchart "/project").

Local Ltac computed := vm_compute; reflexivity.

(** C5 as the specification has it fails twice. A registry that resolves to
    the empty string counts as not found: no registry override is written
    and the repository takes the prefix, where the specification writes the
    prefixed registry and the repository as it is. And a repository given
    by a literal name is not written at all, where the specification
    records it with the prefix. *)
Lemma resolved_registry_rule_fails :
  PathResolver.parse_value shown_empty_registry app_chart "app"
    (ref "image.registry") "registry" = Some EmptyString /\
  overrides
    (run_passes PathResolver.parse_value PathResolver.add_branch_to_dict args0
       shown_empty_registry app_chart "app"
       [("registry", ref "image.registry"); ("repository", ref "image.repository")]
       (NMap []))
  = NMap [("image", NMap [("repository", NStr "999.dkr.ecr.example.com/app")])] /\
  ExtractorSpec.written PathResolver.parse_value PathResolver.add_branch_to_dict args0
    shown_empty_registry app_chart "app"
    [("registry", ref "image.registry"); ("repository", ref "image.repository")]
    (NMap [])
  = NMap [("image", NMap [("registry", NStr "999.dkr.ecr.example.com/");
                          ("repository", NStr "app")])] /\
  overrides
    (run_passes PathResolver.parse_value PathResolver.add_branch_to_dict args0
       shown (cert_manager []) "controller"
       [("repository", lit "image.repository" "quay.io/jetstack/cert-manager-controller")]
       (NMap []))
  = NMap [] /\
  ExtractorSpec.written PathResolver.parse_value PathResolver.add_branch_to_dict args0
    shown (cert_manager []) "controller"
    [("repository", lit "image.repository" "quay.io/jetstack/cert-manager-controller")]
    (NMap [])
  = NMap [("image",
           NMap [("repository",
                  NStr "999.dkr.ecr.example.com/quay.io/jetstack/cert-manager-controller")])] /\
  ~ (forall parse_value add_branch_to_dict args parsed values image_name
            (image_data : ImageFieldSpec) vals,
       NoDup (dict_keys image_data) ->
       overrides
         (run_passes parse_value add_branch_to_dict args parsed values image_name
            image_data vals)
       = ExtractorSpec.written parse_value add_branch_to_dict args parsed values
           image_name image_data vals).
Proof.
  split; [computed |]. split; [computed |]. split; [computed |].
  split; [computed |]. split; [computed |].
  intros H.
  specialize (H PathResolver.parse_value PathResolver.add_branch_to_dict args0
                shown_empty_registry app_chart "app"
                [("registry", ref "image.registry"); ("repository", ref "image.repository")]
                (NMap [])).
  assert (Hnd : NoDup (dict_keys
            [("registry", ref "image.registry"); ("repository", ref "image.repository")])).
  { apply (bool_decide_unpack _). vm_compute. exact I. }
  specialize (H Hnd). vm_compute in H. discriminate H.
Qed.

Lemma repository_override_follows_registry_witness :
  overrides
    (run_passes PathResolver.parse_value PathResolver.add_branch_to_dict args0
       shown_empty_registry app_chart "app"
       [("registry", ref "image.registry"); ("repository", ref "image.repository")]
       (NMap []))
  = apply_writes PathResolver.add_branch_to_dict
      [(ref "image.repository", Some "999.dkr.ecr.example.com/app")] (NMap []) /\
  overrides
    (run_passes PathResolver.parse_value PathResolver.add_branch_to_dict args0
       shown app_chart "app"
       [("registry", ref "image.registry"); ("repository", ref "image.repository")]
       (NMap []))
  = apply_writes PathResolver.add_branch_to_dict
      [(ref "image.registry", Some "999.dkr.ecr.example.com/123.dkr.ecr.example.com");
       (ref "image.repository", Some "app")] (NMap []).
Proof.
  assert (Hnd : NoDup (dict_keys
            [("registry", ref "image.registry"); ("repository", ref "image.repository")])).
  { apply (bool_decide_unpack _). vm_compute. exact I. }
  split.
  - destruct (repository_override_follows_registry
                PathResolver.parse_value PathResolver.add_branch_to_dict args0
                shown_empty_registry app_chart "app"
                [("registry", ref "image.registry"); ("repository", ref "image.repository")]
                (NMap []) Hnd) as (_ & Hover & _).
    rewrite Hover. vm_compute. reflexivity.
  - destruct (repository_override_follows_registry
                PathResolver.parse_value PathResolver.add_branch_to_dict args0
                shown app_chart "app"
                [("registry", ref "image.registry"); ("repository", ref "image.repository")]
                (NMap []) Hnd) as (_ & Hover & _).
    rewrite Hover. vm_compute. reflexivity.
Defined.

Local Ltac distinct := apply (bool_decide_unpack _); vm_compute; exact I.

Lemma written_mapping_list_shape_witness :
  exists per_workload,
    Forall2 (fun wv new =>
               match images (snd wv) with
               | None => new = []
               | Some specs =>
                   exists vals,
                     walk_images_ args0
                       (show_workload helm_show helm_show_subchart "/project" (fst wv) (snd wv))
                       (snd wv) specs (NMap []) [] = Ok (vals, new)
               end) (workloads_data cat_plain) per_workload /\
    length (concat per_workload) = image_count (workloads_data cat_plain) /\
    Forall2 (fun image e =>
               process_image image (docker_mappings cat_plain) = Ok (src e) /\
               target e = registry_prefix args0 +:+ fmt image)
      ((Some <$> dict_values (additional_images cat_plain)) ++
       (Some <$> dict_values (additional_images cat_plain)) ++ concat per_workload)
      (prefixed <$> ["registry.k8s.io/pause:3.9"; "registry.k8s.io/pause:3.9";
                     controller_image]).
Proof.
  apply (written_mapping_list_shape helm_show helm_show_subchart
           PathResolver.parse_value PathResolver.add_branch_to_dict "/project"
           args0 cat_plain
           (manifest [cert_manager_out []]
              [("pause", "999.dkr.ecr.example.com/registry.k8s.io/pause:3.9")])).
  - apply (bool_decide_unpack _). vm_compute. exact I.
  - computed.
Defined.

Lemma unresolved_coordinate_aborts_witness :
  run args0 cat_miss = Aborted TypeError false.
Proof.
  apply (unresolved_coordinate_aborts helm_show helm_show_subchart
           PathResolver.parse_value PathResolver.add_branch_to_dict "/project"
           args0 cat_miss
           [cert_manager_out
              [("appVersion", NStr "v1.6.1");
               ("image", NMap [("nothere", NStr "999.dkr.ecr.example.com/None")])]]
           [Some controller_image; None] controller_image).
  - computed.
  - right. left. reflexivity.
  - left. reflexivity.
Defined.

Lemma additional_images_prefixed_witness :
  updated_additional_images args0 cat_plain
  = [("pause", "999.dkr.ecr.example.com/registry.k8s.io/pause:3.9")].
Proof.
  rewrite (additional_images_prefixed args0 cat_plain); [reflexivity | distinct].
Defined.

Lemma charts_follow_catalog_witness :
  dict_keys [cert_manager_out [];
             ("metrics_server",
              {| helm := helm_block args0 metrics_server; values := NMap [] |})]
  = ["cert_manager"; "metrics_server"].
Proof.
  apply (charts_follow_catalog helm_show helm_show_subchart
           PathResolver.parse_value PathResolver.add_branch_to_dict "/project"
           args0 cat_noimages
           (manifest [cert_manager_out [];
                      ("metrics_server",
                       {| helm := helm_block args0 metrics_server; values := NMap [] |})] [])
           [prefixed controller_image]).
  - distinct.
  - computed.
Defined.

Lemma cert_manager_rule_frame_witness :
  (forall w, w <> "cert_manager" ->
     dict_get [cert_manager_out [("image", NStr "kept")]; ("app", snd (cert_manager_out []))] w
     = dict_get [cert_manager_out [("appVersion", NStr "v1.6.1"); ("image", NStr "kept")];
                 ("app", snd (cert_manager_out []))] w) /\
  (exists entry entry',
     dict_get [cert_manager_out [("appVersion", NStr "v1.6.1"); ("image", NStr "kept")];
               ("app", snd (cert_manager_out []))] "cert_manager" = Some entry /\
     dict_get [cert_manager_out [("image", NStr "kept")]; ("app", snd (cert_manager_out []))]
       "cert_manager" = Some entry' /\
     helm entry' = helm entry /\
     forall k, k <> "appVersion" ->
       subscript (values entry') k = subscript (values entry) k).
Proof.
  apply cert_manager_rule_frame. computed.
Defined.

Lemma run_needs_cert_manager_witness :
  run args0 cat_no_cert_manager = Aborted (KeyError "cert_manager") true \/
  exists e, run args0 cat_no_cert_manager = Aborted e false.
Proof.
  apply (run_needs_cert_manager helm_show helm_show_subchart
           PathResolver.parse_value PathResolver.add_branch_to_dict "/project"
           args0 cat_no_cert_manager).
  vm_compute. intros [H|[]]. discriminate H.
Defined.

Lemma cert_manager_needs_images_witness :
  run args0 cat_bare_cert_manager = Aborted (KeyError "appVersion") true \/
  exists e, run args0 cat_bare_cert_manager = Aborted e false.
Proof.
  apply (cert_manager_needs_images helm_show helm_show_subchart
           PathResolver.parse_value PathResolver.add_branch_to_dict "/project"
           args0 cat_bare_cert_manager bare_cert_manager).
  - distinct.
  - left. reflexivity.
  - reflexivity.
Defined.

Lemma parsed_charts_entries_witness :
  dict_keys (parsed_charts_ (workloads_data cat_noimages))
    = ["cert_manager"; "metrics_server"] /\
  dict_get (parsed_charts_ (workloads_data cat_noimages)) "metrics_server" = Some (NMap []).
Proof.
  apply (parsed_charts_entries helm_show helm_show_subchart "/project"
           (workloads_data cat_noimages) "metrics_server" metrics_server).
  - distinct.
  - right. left. reflexivity.
Defined.

Lemma workload_overrides_isolated_witness :
  exists entry new,
    dict_get
      [cert_manager_out [];
       ("app",
        {| helm := helm_block args0 app_chart;
           values :=
             NMap [("image",
                    NMap [("registry",
                           NStr "999.dkr.ecr.example.com/123.dkr.ecr.example.com");
                          ("repository", NStr "app")])] |})] "app" = Some entry /\
    walk_images_ args0 (show_workload helm_show helm_show_subchart "/project" "app" app_chart)
      app_chart app_images (NMap []) []
    = Ok (values entry, new).
Proof.
  apply (workload_overrides_isolated helm_show helm_show_subchart
           PathResolver.parse_value PathResolver.add_branch_to_dict "/project"
           args0 cat_two
           (manifest
              [cert_manager_out [];
               ("app",
                {| helm := helm_block args0 app_chart;
                   values :=
                     NMap [("image",
                            NMap [("registry",
                                   NStr "999.dkr.ecr.example.com/123.dkr.ecr.example.com");
                                  ("repository", NStr "app")])] |})] [])
           (prefixed <$> [controller_image; "123.dkr.ecr.example.com/app"])
           "app" app_chart app_images).
  - distinct.
  - computed.
  - right. left. reflexivity.
  - reflexivity.
  - discriminate.
Defined.


Lemma dependencies_all_found_witness :
  snd (Integ.get_module_dependencies unit get_parameter ["vpc-id"]) = None /\
  (forall key, In key ["vpc-id"] ->
     dict_get (fst (Integ.get_module_dependencies unit get_parameter ["vpc-id"])) key
     = Some (vpc_only key)) /\
  (forall key, ~ In key ["vpc-id"] ->
     dict_get (fst (Integ.get_module_dependencies unit get_parameter ["vpc-id"])) key = None).
Proof.
  apply (dependencies_all_found unit get_parameter vpc_only ["vpc-id"]).
  intros key [<-|[]]. computed.
Defined.


Lemma app_prefix_length_witness :
  Settings.len (Settings.app_prefix accented_settings)
  = Settings.len (Settings.project_name accented_settings)
    + Settings.len (Settings.deployment_name accented_settings)
    + Settings.len (Settings.module_name accented_settings) + 2 /\
  Settings.len (Settings.app_prefix accented_settings)
  <= 36 + Settings.len (Settings.module_name accented_settings).
Proof.
  apply (app_prefix_length accented_settings). computed.
Defined.

Lemma app_prefix_split_witness :
  Py.split "-" (Settings.app_prefix integ_settings) = ["integ"; "testing"; "rds"].
Proof.
  apply (app_prefix_split integ_settings); computed.
Defined.

Lemma removal_policy_caseless_witness :
  Settings.transform_removal_policy "Destroy" = Settings.Valid Settings.DESTROY.
Proof.
  destruct (removal_policy_caseless "Destroy" eq_refl) as [[_ Hdestroy] _].
  apply Hdestroy. cbn. intuition.
Defined.

Lemma split_image_tag_single_colon_witness :
  split_image_tag ("nginx" +:+ ":" +:+ "1.25") = ("nginx", "1.25") /\
  RegistryRewriter.split_last_colon ("nginx" +:+ ":" +:+ "1.25") = ("nginx", "1.25").
Proof.
  apply (split_image_tag_single_colon "nginx" "1.25"); computed.
Defined.

End MoreRuns.
